(** * A verified model of the sliding-window VWAP calculator

    The development embeds [vwap-calculator/main.go] (the exact-rational
    variant built on [math/big.Rat]) and proves the properties of its ring
    buffer, its running sums, its update/query contract and its
    connect/retry loop.

    Conventions of the embedding:
    - Go's [int] is a 64-bit two's-complement integer: it is a [Z] and every
      arithmetic operation is followed by [wrap];
    - [big.Rat] is an arbitrary-precision rational kept in lowest terms: it
      is a [Qc];
    - a Go array is a [list]; indexing outside of it panics;
    - a run of Go code either returns, panics or blocks for ever: the
      [outcome] monad; mutable receivers are passed in and handed back;
    - [sync.Mutex] is a boolean, the calculators of [main] a [gmap];
    - what the program takes from libraries and does not define itself
      ([big.Rat.SetString], [big.Rat.FloatString]) is a parameter of the
      development; decimal instances of both are given to run the model. *)

From Stdlib Require Import ZArith QArith Qcanon String Ascii List Lia.
From Stdlib Require Import DecimalString.
From stdpp Require Import base numbers list strings gmap.

Local Open Scope Z_scope.

(** ** Outcomes of a run *)

Inductive outcome (A : Type) : Type :=
| Ret (a : A)
| Panic
| Blocked.
Arguments Ret {A} a.
Arguments Panic {A}.
Arguments Blocked {A}.

#[global] Instance outcome_ret : MRet outcome := @Ret.
#[global] Instance outcome_bind : MBind outcome := fun A B f m =>
  match m with
  | Ret a => f a
  | Panic => Panic
  | Blocked => Blocked
  end.

(** ** Go's [int] *)

Definition wrap (x : Z) : Z := (x + 2 ^ 63) mod 2 ^ 64 - 2 ^ 63.

Definition int_add (a b : Z) : Z := wrap (a + b).
Definition int_sub (a b : Z) : Z := wrap (a - b).
Definition int_mul (a b : Z) : Z := wrap (a * b).

(** [a % b]: the remainder has the sign of [a]; a zero divisor panics. *)
Definition int_rem (a b : Z) : outcome Z :=
  if b =? 0 then Panic else Ret (wrap (Z.rem a b)).

(** ** Go arrays *)

Definition len {A} (a : list A) : Z := Z.of_nat (length a).

(** [a[i]] as a value. *)
Definition index {A} (a : list A) (i : Z) : outcome A :=
  if (0 <=? i) && (i <? len a)
  then match a !! Z.to_nat i with Some x => Ret x | None => Panic end
  else Panic.

(** [a[i] = x]. *)
Definition store {A} (a : list A) (i : Z) (x : A) : outcome (list A) :=
  if (0 <=? i) && (i <? len a) then Ret (<[Z.to_nat i := x]> a) else Panic.

(** ** [big.Rat] *)

(** [big.NewRat(a, b)], the rational a/b. It panics when [b] is zero; the
    program calls it with [b = 1] only. *)
Definition NewRat (a b : Z) : Qc := Q2Qc (Qmake a 1 / Qmake b 1).

(** [x.Cmp(y)] is -1, 0 or +1. *)
Definition Cmp (x y : Qc) : Z :=
  match (x ?= y)%Qc with
  | Lt => -1
  | Eq => 0
  | Gt => 1
  end.

(** [z.Quo(x, y)] panics when [y] is zero. *)
Definition Quo (x y : Qc) : outcome Qc :=
  if decide (y = 0%Qc) then Panic else Ret (x / y)%Qc.

(** ** [sync.Mutex] *)

Definition Mutex : Type := bool.

(** In a run with a single thread of control, locking a locked mutex never
    returns. *)
Definition Lock (mu : Mutex) : outcome Mutex :=
  if mu then Blocked else Ret true.

(** Unlocking an unlocked mutex is a fatal error. *)
Definition Unlock (mu : Mutex) : outcome Mutex :=
  if mu then Ret false else Panic.

(** ** Decimal instances of the library functions *)

Definition digit_of (c : ascii) : option Z :=
  let n := Z.of_N (N_of_ascii c) in
  if (48 <=? n) && (n <=? 57) then Some (n - 48) else None.

(** Reads digits into [acc]; [k] counts them. Stops at the first character
    that is not a digit and returns the rest. *)
Fixpoint read_digits (s : string) (acc : Z) (k : nat) : Z * nat * string :=
  match s with
  | EmptyString => (acc, k, EmptyString)
  | String c s' =>
      match digit_of c with
      | Some d => read_digits s' (10 * acc + d) (S k)
      | None => (acc, k, s)
      end
  end.

Definition Q_of_decimal (neg : bool) (mant : Z) (frac_digits : nat) : Qc :=
  let m := if neg then - mant else mant in
  Q2Qc (Qmake m (Pos.of_nat (Nat.pow 10 frac_digits))).

(** The plain decimal numbers among the inputs [big.Rat.SetString] accepts:
    an optional sign, digits, and an optional fraction part, with at least
    one digit in all. *)
Definition decimalSetString (s : string) : option Qc :=
  let '(neg, s1) :=
    match s with
    | String "-"%char r => (true, r)
    | String "+"%char r => (false, r)
    | _ => (false, s)
    end in
  let '(ip, ki, s2) := read_digits s1 0 0 in
  match s2 with
  | EmptyString =>
      if (0 <? ki)%nat then Some (Q_of_decimal neg ip 0) else None
  | String "."%char s3 =>
      let '(m, kf, s4) := read_digits s3 ip 0 in
      match s4 with
      | EmptyString =>
          if (0 <? ki + kf)%nat then Some (Q_of_decimal neg m kf) else None
      | _ => None
      end
  | _ => None
  end.

Definition utoa (n : Z) : string :=
  NilEmpty.string_of_uint (N.to_uint (Z.to_N n)).

Fixpoint zeros (n : nat) : string :=
  match n with
  | O => EmptyString
  | S n' => String "0"%char (zeros n')
  end.

(** [x.FloatString(prec)] as [math/big] computes it: the integer part, and
    [prec] digits of the fraction rounded half away from zero. *)
Definition decimalFloatString (x : Qc) (prec : Z) : string :=
  let a := Qnum (this x) in
  let b := Zpos (Qden (this x)) in
  let p := 10 ^ prec in
  let q := Z.abs a / b in
  let r := (Z.abs a mod b) * p in
  let r2 := r mod b in
  let r := r / b in
  let '(q, r) :=
    if b <=? r2 + r2
    then (if p <=? r + 1 then (q + 1, r + 1 - p) else (q, r + 1))
    else (q, r) in
  let sign := if a <? 0 then "-"%string else EmptyString in
  let rs := utoa r in
  let frac :=
    if 0 <? prec
    then ("." ++ zeros (Z.to_nat prec - String.length rs) ++ rs)%string
    else EmptyString in
  (sign ++ utoa q ++ frac)%string.


(** ** The calculator *)

(** An [error] is represented by the text of its [Error()] method. *)
Definition error : Type := string.

Record RingBuffer : Type := mkRingBuffer {
  data : list Qc;
  start : Z;
  count : Z
}.

(** The results of [RingBuffer.Add]; [None] is a nil pointer. *)
Record AddResult : Type := mkAddResult {
  oldPrice : option Qc;
  oldSize : option Qc;
  removed : bool
}.

Record VWAPCalculator : Type := mkVWAPCalculator {
  mu : Mutex;
  buffer : RingBuffer;
  totalPV : Qc;
  totalVolume : Qc
}.

(** Dereferencing a nil pointer panics. *)
Definition deref {A} (p : option A) : outcome A :=
  match p with
  | Some x => Ret x
  | None => Panic
  end.

Section Calculator.

(** [const windowSize = 200] in the source; the development holds for every
    window size and is run at 200 and at smaller sizes. *)
Variable windowSize : Z.

(** [new(big.Rat).SetString(s)]: the value, or [None] when [ok] is false. *)
Variable SetString : string -> option Qc.

(** [x.FloatString(prec)]. *)
Variable FloatString : Qc -> Z -> string.

(** The zero value of [RingBuffer]: an array of [windowSize * 2] zeros. *)
Definition zeroRingBuffer : RingBuffer :=
  {| data := replicate (Z.to_nat (windowSize * 2)) 0%Qc; start := 0; count := 0 |}.

Definition Add (price size : Qc) (rb : RingBuffer)
  : outcome (AddResult * RingBuffer) :=
  '(res, rb) ←
    (if count rb =? windowSize then
       oldPrice ← index (data rb) (start rb);
       oldSize ← index (data rb) (int_add (start rb) 1);
       start' ← int_rem (int_add (start rb) 2) (len (data rb));
       Ret ({| oldPrice := Some oldPrice; oldSize := Some oldSize; removed := true |},
            {| data := data rb; start := start'; count := count rb |})
     else
       Ret ({| oldPrice := None; oldSize := None; removed := false |},
            {| data := data rb; start := start rb; count := int_add (count rb) 1 |}));
  pos ← int_rem (int_add (start rb) (int_mul (int_sub (count rb) 1) 2)) (len (data rb));
  data1 ← store (data rb) pos price;
  data2 ← store data1 (int_add pos 1) size;
  Ret (res, {| data := data2; start := start rb; count := count rb |}).

Definition NewVWAPCalculator : VWAPCalculator :=
  {| mu := false; buffer := zeroRingBuffer; totalPV := 0%Qc; totalVolume := 0%Qc |}.

Definition invalidTrade : error :=
  "invalid trade data: price and size must be positive rational numbers".

(** The body of [Update] that runs with the mutex held. *)
Definition Update_locked (price size : Qc) (v : VWAPCalculator)
  : outcome VWAPCalculator :=
  '(res, buffer') ← Add price size (buffer v);
  '(pv, vol) ←
    (if removed res then
       oldPrice ← deref (oldPrice res);
       oldSize ← deref (oldSize res);
       Ret ((totalPV v - oldPrice * oldSize)%Qc, (totalVolume v - oldSize)%Qc)
     else Ret (totalPV v, totalVolume v));
  Ret {| mu := mu v; buffer := buffer';
         totalPV := (pv + price * size)%Qc; totalVolume := (vol + size)%Qc |}.

Definition Update (priceStr sizeStr : string) (v : VWAPCalculator)
  : outcome (option error * VWAPCalculator) :=
  match SetString priceStr, SetString sizeStr with
  | Some price, Some size =>
      if (Cmp price (NewRat 0 1) <=? 0) || (Cmp size (NewRat 0 1) <=? 0)
      then Ret (Some invalidTrade, v)
      else
        mu1 ← Lock (mu v);
        v ← Update_locked price size
               {| mu := mu1; buffer := buffer v;
                  totalPV := totalPV v; totalVolume := totalVolume v |};
        mu2 ← Unlock (mu v);
        Ret (None, {| mu := mu2; buffer := buffer v;
                      totalPV := totalPV v; totalVolume := totalVolume v |})
  | _, _ => Ret (Some invalidTrade, v)
  end.

Definition Calculate (v : VWAPCalculator) : outcome (string * VWAPCalculator) :=
  mu1 ← Lock (mu v);
  r ← (if Cmp (totalVolume v) (NewRat 0 1) =? 0 then Ret "0"%string
       else vwap ← Quo (totalPV v) (totalVolume v);
            Ret (FloatString vwap 4));
  mu2 ← Unlock mu1;
  Ret (r, {| mu := mu2; buffer := buffer v;
             totalPV := totalPV v; totalVolume := totalVolume v |}).

End Calculator.

(** ** Inbound frames *)

(** A JSON value; a number keeps its literal. The decoding below follows
    the rules of [encoding/json] for a struct whose fields are strings. *)
#[warnings="-register-all"] Inductive JSON : Type :=
| JNull
| JBool (b : bool)
| JNumber (lit : string)
| JString (s : string)
| JArray (elems : list JSON)
| JObject (members : list (string * JSON)).

(** A frame ([message []byte]) as [encoding/json] scans it: bytes that are
    not a JSON text, with the scanner's error, or the value they spell. *)
Inductive Message : Type :=
| Invalid (err : error)
| Valid (j : JSON).

Record Trade : Type := mkTrade {
  Type_ : string;      (* `json:"type"` *)
  ProductID : string;  (* `json:"product_id"` *)
  Price : string;      (* `json:"price"` *)
  Size : string        (* `json:"size"` *)
}.

Inductive Field : Type := FType | FProductID | FPrice | FSize.

Definition jsonName (f : Field) : string :=
  match f with
  | FType => "type"
  | FProductID => "product_id"
  | FPrice => "price"
  | FSize => "size"
  end.

Definition fields : list Field := [FType; FProductID; FPrice; FSize].

Definition setField (f : Field) (s : string) (t : Trade) : Trade :=
  match f with
  | FType => {| Type_ := s; ProductID := ProductID t; Price := Price t; Size := Size t |}
  | FProductID => {| Type_ := Type_ t; ProductID := s; Price := Price t; Size := Size t |}
  | FPrice => {| Type_ := Type_ t; ProductID := ProductID t; Price := s; Size := Size t |}
  | FSize => {| Type_ := Type_ t; ProductID := ProductID t; Price := Price t; Size := s |}
  end.

Definition upper (c : ascii) : ascii :=
  let n := N_of_ascii c in
  if ((97 <=? n) && (n <=? 122))%N then ascii_of_N (n - 32) else c.

(** Case folding of a key, on its UTF-8 bytes: ASCII letters go to upper
    case, and the two runes outside ASCII that fold to an ASCII letter,
    U+017F (bytes C5 BF) and U+212A (bytes E2 84 AA), go to S and K. The
    folds of the other runes never meet an ASCII name and are left out. *)
Fixpoint foldName (s : string) : string :=
  match s with
  | EmptyString => EmptyString
  | String c r =>
      match N_of_ascii c, r with
      | 197%N, String d r' =>
          if (N_of_ascii d =? 191)%N then String "S"%char (foldName r')
          else String c (foldName r)
      | 226%N, String d (String e r') =>
          if ((N_of_ascii d =? 132) && (N_of_ascii e =? 170))%N
          then String "K"%char (foldName r')
          else String c (foldName r)
      | _, _ => String (upper c) (foldName r)
      end
  end.

(** The field a key of the object names: the one with exactly that name,
    otherwise the first whose name matches when case is ignored. *)
Definition fieldOf (key : string) : option Field :=
  match find (fun f => String.eqb (jsonName f) key) fields with
  | Some f => Some f
  | None => find (fun f => String.eqb (foldName (jsonName f)) (foldName key)) fields
  end.

Definition kindOf (j : JSON) : string :=
  match j with
  | JNull => "null"
  | JBool _ => "bool"
  | JNumber _ => "number"
  | JString _ => "string"
  | JArray _ => "array"
  | JObject _ => "object"
  end.

Definition typeErrorField (j : JSON) (f : Field) : error :=
  ("json: cannot unmarshal " ++ kindOf j ++ " into Go struct field Trade."
     ++ jsonName f ++ " of type string")%string.

Definition typeErrorValue (j : JSON) : error :=
  ("json: cannot unmarshal " ++ kindOf j ++ " into Go value of type main.Trade")%string.

(** One member of the object: a string sets the field it names, [null]
    leaves it, any other value is a type error; the first error is kept and
    decoding goes on. Keys that name no field are skipped. *)
Definition decodeMember (acc : Trade * option error) (m : string * JSON)
  : Trade * option error :=
  let '(t, err) := acc in
  match fieldOf m.1 with
  | None => (t, err)
  | Some f =>
      match m.2 with
      | JString s => (setField f s t, err)
      | JNull => (t, err)
      | j => (t, match err with Some e => Some e | None => Some (typeErrorField j f) end)
      end
  end.

(** [json.Unmarshal(message, &trade)] for a [trade] of type [Trade]. *)
Definition Unmarshal (message : Message) (trade : Trade) : Trade * option error :=
  match message with
  | Invalid err => (trade, Some err)
  | Valid JNull => (trade, None)
  | Valid (JObject members) => fold_left decodeMember members (trade, None)
  | Valid j => (trade, Some (typeErrorValue j))
  end.

(** ** Logging, output and the feed *)

Inductive Event : Type :=
| Infof (format : string) (args : list string)
| Errorf (format : string) (args : list string)
| Printf (format : string) (args : list string)
| Sleep (d : Z)
| Close.

Definition websocketURL : string := "wss://ws-feed.exchange.coinbase.com".
Definition retryDelay : Z := 3 * 1000000000.
Definition maxRetries : Z := 5.

(** What the network does at one dial: it fails, or gives a connection on
    which the subscription either fails or is written, and whose reads
    deliver [frames] and then fail with [readErr]. *)
Record Conn : Type := mkConn {
  writeErr : option error;
  frames : list Message;
  readErr : error
}.

Inductive Dial : Type :=
| DialErr (err : error)
| DialOk (conn : Conn).

(** The zero value of [Trade] ([var trade Trade]). *)
Definition zeroTrade : Trade :=
  {| Type_ := EmptyString; ProductID := EmptyString;
     Price := EmptyString; Size := EmptyString |}.

Section Feed.

Variable windowSize : Z.
Variable SetString : string -> option Qc.
Variable FloatString : Qc -> Z -> string.

Definition processMessage (message : Message)
  (calculators : gmap string VWAPCalculator)
  : outcome (gmap string VWAPCalculator * list Event) :=
  let '(trade, err) := Unmarshal message zeroTrade in
  match err with
  | Some err => Ret (calculators, [Errorf "JSON decode error: %v" [err]])
  | None =>
      if negb (String.eqb (Type_ trade) "match") then Ret (calculators, [])
      else
        let received :=
          Infof "Received trade: %s %s @ %s" [ProductID trade; Size trade; Price trade] in
        match calculators !! ProductID trade with
        | None =>
            Ret (calculators,
                 [received;
                  Errorf "Received trade for unknown product: %s" [ProductID trade]])
        | Some calculator =>
            '(err, calculator) ←
              Update windowSize SetString (Price trade) (Size trade) calculator;
            let calculators := <[ProductID trade := calculator]> calculators in
            match err with
            | Some err =>
                Ret (calculators, [received; Errorf "Update failed: %v" [err]])
            | None =>
                '(vwap, calculator) ← Calculate FloatString calculator;
                Ret (<[ProductID trade := calculator]> calculators,
                     [received; Printf "%s VWAP: %s\n" [ProductID trade; vwap]])
            end
        end
  end.

(** The receive loop of [handleConnection]: [readMessages] hands over the
    frames one by one on an unbuffered channel and then the read error. *)
Fixpoint receive (frames : list Message) (readErr : error)
  (calculators : gmap string VWAPCalculator)
  : outcome (error * gmap string VWAPCalculator * list Event) :=
  match frames with
  | [] => Ret (("read error: " ++ readErr)%string, calculators, [])
  | message :: frames =>
      '(calculators, out1) ← processMessage message calculators;
      '(err, calculators, out2) ← receive frames readErr calculators;
      Ret (err, calculators, out1 ++ out2)
  end.

Definition subscribe (conn : Conn) : option error * list Event :=
  match writeErr conn with
  | Some err => (Some ("subscribe failed: " ++ err)%string, [])
  | None => (None, [Infof "Subscribed to matches channel" []])
  end.

Definition handleConnection (conn : Conn) (calculators : gmap string VWAPCalculator)
  : outcome (error * gmap string VWAPCalculator * list Event) :=
  match subscribe conn with
  | (Some err, out) => Ret (err, calculators, out)
  | (None, out1) =>
      '(err, calculators, out2) ← receive (frames conn) (readErr conn) calculators;
      Ret (err, calculators, out1 ++ out2)
  end.

Definition connectWebSocket (dial : Dial) : (option Conn * option error) * list Event :=
  let out := [Infof "Connecting to %s" [websocketURL]] in
  match dial with
  | DialErr err => ((None, Some ("connection failed: " ++ err)%string), out)
  | DialOk conn => ((Some conn, None), out)
  end.

(** The state of [main] between two turns of its loop. *)
Record MainState : Type := mkMainState {
  calculators : gmap string VWAPCalculator;
  retryCount : Z;
  output : list Event
}.

Inductive Status : Type :=
| Looping (s : MainState)
| Returned (s : MainState).

Definition mainInit : MainState :=
  {| calculators :=
       <["BTC-USD"%string := NewVWAPCalculator windowSize]>
         (<["ETH-USD"%string := NewVWAPCalculator windowSize]>
            (<["ETH-BTC"%string := NewVWAPCalculator windowSize]> ∅));
     retryCount := 0;
     output := [] |}.

(** One turn of the [for] loop of [main], for what the dial gives. *)
Definition mainTurn (s : MainState) (dial : Dial) : outcome Status :=
  let '((conn, err), out0) := connectWebSocket dial in
  match conn, err with
  | Some conn, None =>
      '(err, calculators, out1) ← handleConnection conn (calculators s);
      Ret (Looping
             {| calculators := calculators;
                retryCount := 0;
                output := output s ++ out0 ++ out1
                            ++ [Errorf "Connection handling failed: %v" [err];
                                Close; Sleep retryDelay] |})
  | _, _ =>
      let retryCount := int_add (retryCount s) 1 in
      if retryCount >? maxRetries then
        Ret (Returned
               {| calculators := calculators s;
                  retryCount := retryCount;
                  output := output s ++ out0
                              ++ [Errorf "Max connection retries (%d) reached"
                                    [utoa maxRetries]] |})
      else
        Ret (Looping
               {| calculators := calculators s;
                  retryCount := retryCount;
                  output := output s ++ out0 ++ [Sleep retryDelay] |})
  end.

(** [main] against a script of dials: the state when the script is used up
    or [main] has returned, with the dials never made. *)
Fixpoint mainLoop (script : list Dial) (s : MainState)
  : outcome (Status * list Dial) :=
  match script with
  | [] => Ret (Looping s, [])
  | dial :: script =>
      st ← mainTurn s dial;
      match st with
      | Looping s => mainLoop script s
      | Returned s => Ret (Returned s, script)
      end
  end.

Definition main (script : list Dial) : outcome (Status * list Dial) :=
  mainLoop script mainInit.

End Feed.

(** ** Observations on frames and on the output of [main] *)

(** A frame with the four members of an inbound event. *)
Definition frame (type product_id : string) (price size : JSON) : Message :=
  Valid (JObject [("type", JString type); ("product_id", JString product_id);
                  ("price", price); ("size", size)]).

(** The frame decodes into a trade: [Unmarshal] returns no error. *)
Definition decodes (message : Message) : Prop :=
  exists trade, Unmarshal message zeroTrade = (trade, None).

Definition isConnecting (e : Event) : bool :=
  match e with
  | Infof format _ => String.eqb format "Connecting to %s"
  | _ => false
  end.

(** The number of connection attempts a run of [main] has made. *)
Definition attempts (out : list Event) : nat :=
  length (filter (fun e => isConnecting e = true) out).

(** [main] returns at dial number [n] of the script and makes no other. *)
Definition gives_up_after (n : nat) (result : outcome (Status * list Dial))
  (script : list Dial) : Prop :=
  exists s, result = Ret (Returned s, drop n script) /\ attempts (output s) = n.

(** The longest run of dials that fail one after the other, the first run
    being [current] failures long already. *)
Fixpoint longestFailRun (current : nat) (script : list Dial) : nat :=
  match script with
  | [] => current
  | DialErr _ :: script => longestFailRun (S current) script
  | DialOk _ :: script => Nat.max current (longestFailRun 0 script)
  end.

(** ** Abstraction of the ring buffer *)

(** The pair held [i] places after the oldest one. *)
Definition slot (rb : RingBuffer) (i : nat) : Qc * Qc :=
  let pos := Z.to_nat ((start rb + 2 * Z.of_nat i) mod len (data rb)) in
  (nth pos (data rb) 0%Qc, nth (S pos) (data rb) 0%Qc).

(** The pairs the buffer retains, oldest first. *)
Definition contents (rb : RingBuffer) : list (Qc * Qc) :=
  map (slot rb) (seq 0 (Z.to_nat (count rb))).

Definition sumPV (l : list (Qc * Qc)) : Qc :=
  foldr (fun t acc => (t.1 * t.2 + acc)%Qc) 0%Qc l.

Definition sumVolume (l : list (Qc * Qc)) : Qc :=
  foldr (fun t acc => (t.2 + acc)%Qc) 0%Qc l.

(** The last [n] elements of a list. *)
Definition lastn {A} (n : nat) (l : list A) : list A :=
  drop (length l - n) l.

(** The shape of a ring buffer of window [w]. *)
Definition rb_shape (w : Z) (rb : RingBuffer) : Prop :=
  len (data rb) = w * 2 /\
  0 <= count rb <= w /\
  0 <= start rb < w * 2 /\
  start rb mod 2 = 0.

(** A calculator at rest: the mutex is free, the buffer has its shape and
    the running sums are those of the retained pairs. *)
Definition consistent (w : Z) (v : VWAPCalculator) : Prop :=
  mu v = false /\
  rb_shape w (buffer v) /\
  totalPV v = sumPV (contents (buffer v)) /\
  totalVolume v = sumVolume (contents (buffer v)).

(** The index [pos] at which [Add] writes, with the arithmetic of [Z]. *)
Definition Add_pos (w : Z) (rb : RingBuffer) : Z :=
  let full := count rb =? w in
  let start' := if full then (start rb + 2) mod (w * 2) else start rb in
  let count' := if full then count rb else count rb + 1 in
  (start' + (count' - 1) * 2) mod (w * 2).

(** Every calculator of the registry is at rest. *)
Definition registry_ok (w : Z) (calculators : gmap string VWAPCalculator) : Prop :=
  map_Forall (fun _ v => consistent w v) calculators.

(** [Add] with the arithmetic of [Z] and no bounds checks: what [Add] does
    on a buffer that has its shape ([Add_plain_eq] below). *)
Definition Add_plain (w : Z) (price size : Qc) (rb : RingBuffer)
  : AddResult * RingBuffer :=
  let full := count rb =? w in
  let pos := Add_pos w rb in
  (if full
   then {| oldPrice := Some (nth (Z.to_nat (start rb)) (data rb) 0%Qc);
           oldSize := Some (nth (Z.to_nat (start rb + 1)) (data rb) 0%Qc);
           removed := true |}
   else {| oldPrice := None; oldSize := None; removed := false |},
   {| data := <[Z.to_nat (pos + 1) := size]> (<[Z.to_nat pos := price]> (data rb));
      start := if full then (start rb + 2) mod (w * 2) else start rb;
      count := if full then count rb else count rb + 1 |}).

(** What [Add] returns when nothing is evicted, and when [t] is. *)
Definition kept : AddResult :=
  {| oldPrice := None; oldSize := None; removed := false |}.

Definition evicted (t : Qc * Qc) : AddResult :=
  {| oldPrice := Some t.1; oldSize := Some t.2; removed := true |}.

(** A window of [n] places as a list, oldest first: a new element pushes
    the oldest out once the window is full. *)
Definition slide {A} (n : nat) (x : A) (c : list A) : list A :=
  if (length c =? n)%nat then tail c ++ [x] else c ++ [x].

(** ** Runs of calls *)

(** A sequence of inserts into one buffer, with what each returned. *)
Fixpoint AddAll (w : Z) (inserts : list (Qc * Qc)) (rb : RingBuffer)
  : outcome (list AddResult * RingBuffer) :=
  match inserts with
  | [] => Ret ([], rb)
  | (price, size) :: inserts =>
      '(res, rb) ← Add w price size rb;
      '(ress, rb) ← AddAll w inserts rb;
      Ret (res :: ress, rb)
  end.

Inductive Call : Type :=
| CallUpdate (priceStr sizeStr : string)
| CallCalculate.

Inductive Reply : Type :=
| Updated (err : option error)
| Calculated (value : string).

(** A sequence of calls on one calculator, with what each returned. *)
Fixpoint run (w : Z) (SetString : string -> option Qc) (FloatString : Qc -> Z -> string)
  (calls : list Call) (v : VWAPCalculator)
  : outcome (list Reply * VWAPCalculator) :=
  match calls with
  | [] => Ret ([], v)
  | call :: calls =>
      '(reply, v) ←
        match call with
        | CallUpdate priceStr sizeStr =>
            '(err, v) ← Update w SetString priceStr sizeStr v; Ret (Updated err, v)
        | CallCalculate =>
            '(value, v) ← Calculate FloatString v; Ret (Calculated value, v)
        end;
      '(replies, v) ← run w SetString FloatString calls v;
      Ret (reply :: replies, v)
  end.

(** A trade as [Update] takes it, with the values its strings spell. *)
Definition valid (SetString : string -> option Qc)
  (trade : string * string) (val : Qc * Qc) : Prop :=
  SetString trade.1 = Some val.1 /\ SetString trade.2 = Some val.2 /\
  (0 < val.1)%Qc /\ (0 < val.2)%Qc.

Definition updates (trades : list (string * string)) : list Call :=
  map (fun t => CallUpdate t.1 t.2) trades.

(** What the last call of a run returned. *)
Definition lastReply (result : outcome (list Reply * VWAPCalculator)) : option Reply :=
  match result with
  | Ret (replies, _) => last replies
  | _ => None
  end.

(** ** A list model of the calculator *)

(** The trade two strings spell, when [Update] accepts them. *)
Definition parseTrade (SetString : string -> option Qc) (priceStr sizeStr : string)
  : option (Qc * Qc) :=
  match SetString priceStr, SetString sizeStr with
  | Some price, Some size =>
      if decide ((0 < price)%Qc /\ (0 < size)%Qc) then Some (price, size) else None
  | _, _ => None
  end.

(** The trades a sequence of calls gets accepted, in order. *)
Definition acceptedTrades (SetString : string -> option Qc) (calls : list Call)
  : list (Qc * Qc) :=
  omap (fun call =>
          match call with
          | CallUpdate priceStr sizeStr => parseTrade SetString priceStr sizeStr
          | CallCalculate => None
          end) calls.

(** The text for the volume-weighted average price of a window. *)
Definition vwapText (FloatString : Qc -> Z -> string) (window : list (Qc * Qc)) : string :=
  match window with
  | [] => "0"
  | _ => FloatString (sumPV window / sumVolume window)%Qc 4
  end.

(** The calculator as a list of at most [n] trades: an accepted update
    slides the window, a rejected one and a query leave it. *)
Fixpoint windowRun (n : nat) (SetString : string -> option Qc)
  (FloatString : Qc -> Z -> string) (calls : list Call) (window : list (Qc * Qc))
  : list Reply * list (Qc * Qc) :=
  match calls with
  | [] => ([], window)
  | CallUpdate priceStr sizeStr :: calls =>
      match parseTrade SetString priceStr sizeStr with
      | Some trade =>
          let '(replies, window) :=
            windowRun n SetString FloatString calls (slide n trade window) in
          (Updated None :: replies, window)
      | None =>
          let '(replies, window) := windowRun n SetString FloatString calls window in
          (Updated (Some invalidTrade) :: replies, window)
      end
  | CallCalculate :: calls =>
      let '(replies, window') := windowRun n SetString FloatString calls window in
      (Calculated (vwapText FloatString window) :: replies, window')
  end.

(** Prices and sizes of a trade are positive. *)
Definition positive (t : Qc * Qc) : Prop := (0 < t.1)%Qc /\ (0 < t.2)%Qc.

(** ** The dispatcher seen from one product *)

(** The updates a frame leads to on the calculator of [product]. *)
Definition updatesOf (product : string) (message : Message) : list Call :=
  let '(trade, err) := Unmarshal message zeroTrade in
  match err with
  | Some _ => []
  | None =>
      if String.eqb (Type_ trade) "match" && String.eqb (ProductID trade) product
      then [CallUpdate (Price trade) (Size trade)]
      else []
  end.

(** The frames [handleConnection] hands to [processMessage]: none when the
    subscription could not be written. *)
Definition handledFrames (conn : Conn) : list Message :=
  match writeErr conn with
  | Some _ => []
  | None => frames conn
  end.

(** The frames of all the connections of a script. *)
Definition framesOf (script : list Dial) : list Message :=
  flat_map (fun dial =>
              match dial with
              | DialErr _ => []
              | DialOk conn => handledFrames conn
              end) script.

Definition stateOf (st : Status) : MainState :=
  match st with
  | Looping s => s
  | Returned s => s
  end.

Definition isPrintf (e : Event) : bool :=
  match e with
  | Printf _ _ => true
  | _ => false
  end.

(** Every dial but the first comes right after a sleep of [retryDelay]. *)
Definition delayed (out : list Event) : Prop :=
  forall i e,
    out !! S i = Some e -> isConnecting e = true -> out !! i = Some (Sleep retryDelay).

(** ** Sample data *)

(** The trades of the repository's tests: prices 1, 2, ..., [n], each of
    size 1, written as [fmt.Sprintf("%g", ...)] writes them. *)
Definition unit_trades (n : nat) : list (string * string) :=
  map (fun i => (utoa (Z.of_nat i), "1"%string)) (seq 1 n).


(** A full buffer of three pairs whose oldest pair is in the last two
    places of the array. *)
Definition wrapped_buffer : RingBuffer :=
  {| data := [NewRat 20 1; NewRat 1 1; NewRat 30 1; NewRat 1 1; NewRat 10 1; NewRat 1 1];
     start := 4;
     count := 3 |}.

(** Updates and queries in some order, one update refused. *)
Definition mixed_calls : list Call :=
  [CallUpdate "10" "1"; CallCalculate; CallUpdate "-5" "1"; CallUpdate "20" "3";
   CallUpdate "30" "1"; CallUpdate "40" "1"; CallCalculate].

(** A script with a connection between two runs of failed dials. *)
Definition sample_script (conn : Conn) : list Dial :=
  [DialErr "refused"; DialErr "refused"; DialOk conn;
   DialErr "refused"; DialErr "refused"; DialErr "refused";
   DialErr "refused"; DialErr "refused"; DialErr "refused"; DialErr "never dialled"].

(** A connection on which two trades come before the read fails. *)
Definition two_trades : Conn :=
  {| writeErr := None;
     frames := [frame "match" "BTC-USD" (JString "10") (JString "1");
                frame "match" "BTC-USD" (JString "20") (JString "3")];
     readErr := "EOF" |}.

(** ** Arithmetic of [int] *)

Ltac pow_consts :=
  change (2 ^ 64) with 18446744073709551616 in *;
  change (2 ^ 63) with 9223372036854775808 in *;
  change (2 ^ 61) with 2305843009213693952 in *.

Lemma wrap_small (x : Z) : - 2 ^ 63 <= x < 2 ^ 63 -> wrap x = x.
Proof.
  intros H. unfold wrap. pow_consts.
  rewrite Z.mod_small; lia.
Qed.

Lemma mod_once (x m : Z) :
  0 < m -> 0 <= x < 2 * m -> x mod m = if x <? m then x else x - m.
Proof.
  intros Hm Hx. destruct (Z.ltb_spec x m).
  - apply Z.mod_small. lia.
  - symmetry. apply (Z.mod_unique_pos x m 1 (x - m)); lia.
Qed.

Lemma even_elim (x : Z) : x mod 2 = 0 -> x = 2 * (x / 2).
Proof. intros H. pose proof (Z.div_mod x 2 ltac:(lia)). lia. Qed.

Lemma even_intro (x k : Z) : x = 2 * k -> x mod 2 = 0.
Proof. intros ->. rewrite Z.mul_comm. apply Z.mod_mul. lia. Qed.

Ltac halves k :=
  first [ apply (even_intro _ k); lia
        | apply even_elim, (even_intro _ k); lia ].

(** Splits every [x mod (w * 2)] of the goal, for [x] below [w * 4]. *)
Ltac mod_cases :=
  repeat match goal with
    | |- context [?x mod (?w * 2)] =>
        rewrite (mod_once x (w * 2)) by lia;
        destruct (Z.ltb_spec x (w * 2))
    end.

Lemma int_rem_small (a b : Z) :
  0 <= a < 2 ^ 63 -> 0 < b -> int_rem a b = Ret (a mod b).
Proof.
  intros Ha Hb. unfold int_rem.
  destruct (Z.eqb_spec b 0); [lia |].
  rewrite Z.rem_mod_nonneg by lia.
  rewrite wrap_small; [done |].
  pose proof (Z.mod_pos_bound a b Hb).
  pose proof (Z.mod_le a b). pow_consts. lia.
Qed.

Lemma index_in {A} (a : list A) (i : Z) (d : A) :
  0 <= i < len a -> index a i = Ret (nth (Z.to_nat i) a d).
Proof.
  intros Hi. unfold index, len in *.
  destruct (Z.leb_spec 0 i); [| lia].
  destruct (Z.ltb_spec i (Z.of_nat (length a))); [| lia]. simpl.
  destruct (a !! Z.to_nat i) eqn:E.
  - f_equal. symmetry. by apply nth_lookup_Some with (d := d) in E.
  - apply lookup_ge_None in E. lia.
Qed.

Lemma store_in {A} (a : list A) (i : Z) (x : A) :
  0 <= i < len a -> store a i x = Ret (<[Z.to_nat i := x]> a).
Proof.
  intros Hi. unfold store.
  destruct (Z.leb_spec 0 i); [| lia].
  destruct (Z.ltb_spec i (len a)); [| lia]. done.
Qed.

Lemma len_insert {A} (a : list A) (i : nat) (x : A) : len (<[i := x]> a) = len a.
Proof. unfold len. by rewrite length_insert. Qed.

Lemma nth_insert_eq {A} (a : list A) (i : nat) (x d : A) :
  (i < length a)%nat -> nth i (<[i := x]> a) d = x.
Proof.
  intros Hi. apply nth_lookup_Some with (d := d).
  by apply list_lookup_insert_eq.
Qed.

Lemma nth_insert_at {A} (a : list A) (i j : nat) (x d : A) :
  i = j -> (j < length a)%nat -> nth j (<[i := x]> a) d = x.
Proof. intros ->. apply nth_insert_eq. Qed.

Lemma nth_insert_ne {A} (a : list A) (i j : nat) (x d : A) :
  i <> j -> nth j (<[i := x]> a) d = nth j a d.
Proof.
  intros Hne. rewrite !nth_lookup.
  by rewrite list_lookup_insert_ne.
Qed.

(** ** Windows over lists *)

Lemma lastn_short {A} (n : nat) (l : list A) :
  (length l <= n)%nat -> lastn n l = l.
Proof.
  intros H. unfold lastn.
  by replace (length l - n)%nat with 0%nat by lia.
Qed.

Lemma length_lastn {A} (n : nat) (l : list A) :
  length (lastn n l) = Nat.min (length l) n.
Proof. unfold lastn. rewrite length_drop. lia. Qed.

Lemma slide_lastn {A} (n : nat) (x : A) (l : list A) :
  (0 < n)%nat -> slide n x (lastn n l) = lastn n (l ++ [x]).
Proof.
  intros Hn. unfold slide. rewrite length_lastn.
  unfold lastn. rewrite length_app. simpl.
  destruct (Nat.eqb_spec (Nat.min (length l) n) n) as [Hfull | Hfree].
  - replace (length l + 1 - n)%nat with (S (length l - n)) by lia.
    rewrite drop_app_le by lia. f_equal.
    change (tail (drop (length l - n) l)) with (drop 1 (drop (length l - n) l)).
    rewrite drop_drop. f_equal. lia.
  - replace (length l - n)%nat with 0%nat by lia.
    by replace (length l + 1 - n)%nat with 0%nat by lia.
Qed.

Lemma head_lastn {A} (n : nat) (l : list A) :
  (n <= length l)%nat -> head (lastn n l) = l !! (length l - n)%nat.
Proof.
  intros Hn. unfold lastn.
  rewrite head_lookup, lookup_drop. f_equal. lia.
Qed.

(** ** The ring buffer *)

Section RingBufferFacts.

Variable windowSize : Z.
Hypothesis windowSize_pos : 0 < windowSize.
Hypothesis windowSize_fits : windowSize <= 2 ^ 61.

Lemma zeroRingBuffer_shape : rb_shape windowSize (zeroRingBuffer windowSize).
Proof.
  unfold rb_shape, zeroRingBuffer, len; simpl.
  rewrite length_replicate. repeat split; try lia; done.
Qed.

Lemma Add_plain_eq (price size : Qc) (rb : RingBuffer) :
  rb_shape windowSize rb ->
  Add windowSize price size rb = Ret (Add_plain windowSize price size rb).
Proof.
  intros (Hlen & Hcount & Hstart & Heven).
  pose proof windowSize_fits as Hfits. pow_consts.
  apply even_elim in Heven.
  unfold Add, Add_plain, Add_pos.
  destruct (Z.eqb_spec (count rb) windowSize) as [Hfull | Hfree].
  - unfold int_add, int_sub, int_mul.
    rewrite !(wrap_small (start rb + _)) by (pow_consts; lia).
    rewrite (index_in _ (start rb) 0%Qc) by lia. simpl.
    rewrite (index_in _ (start rb + 1) 0%Qc) by lia. simpl.
    rewrite int_rem_small by (pow_consts; lia). simpl.
    rewrite Hlen.
    pose proof (Z.mod_pos_bound (start rb + 2) (windowSize * 2) ltac:(lia)).
    rewrite (wrap_small (count rb - 1)) by (pow_consts; lia).
    rewrite (wrap_small ((count rb - 1) * 2)) by (pow_consts; lia).
    rewrite wrap_small by (pow_consts; lia).
    rewrite int_rem_small by (pow_consts; lia). simpl.
    set (pos := (_ mod _ + _) mod _).
    assert (0 <= pos < windowSize * 2 /\ pos = 2 * (pos / 2)) as [Hpos Hposeven].
    { subst pos. rewrite (mod_once (start rb + 2)) by lia.
      destruct (Z.ltb_spec (start rb + 2) (windowSize * 2));
        rewrite mod_once by lia;
        match goal with |- context [?a <? ?b] => destruct (Z.ltb_spec a b) end;
        (split; [lia |]);
        first [ halves (start rb / 2 + windowSize) | halves (start rb / 2)
              | halves (start rb / 2 - windowSize) ]. }
    rewrite store_in by lia. simpl.
    rewrite wrap_small by (pow_consts; lia).
    rewrite store_in by (rewrite len_insert; lia). done.
  - simpl. unfold int_add, int_sub, int_mul.
    rewrite (wrap_small (count rb + 1)) by (pow_consts; lia).
    rewrite (wrap_small (count rb + 1 - 1)) by (pow_consts; lia).
    rewrite (wrap_small ((count rb + 1 - 1) * 2)) by (pow_consts; lia).
    rewrite wrap_small by (pow_consts; lia).
    rewrite int_rem_small by (pow_consts; lia). simpl.
    rewrite Hlen.
    set (pos := (_ + _) mod _).
    assert (0 <= pos < windowSize * 2 /\ pos = 2 * (pos / 2)) as [Hpos Hposeven].
    { subst pos. rewrite mod_once by lia.
      match goal with |- context [?a <? ?b] => destruct (Z.ltb_spec a b) end;
        (split; [lia |]);
        first [ halves (start rb / 2 + count rb)
              | halves (start rb / 2 + count rb - windowSize) ]. }
    rewrite store_in by lia. simpl.
    rewrite wrap_small by (pow_consts; lia).
    rewrite store_in by (rewrite len_insert; lia). done.
Qed.

Lemma Add_plain_shape (price size : Qc) (rb : RingBuffer) :
  rb_shape windowSize rb -> rb_shape windowSize (Add_plain windowSize price size rb).2.
Proof.
  intros (Hlen & Hcount & Hstart & Heven).
  apply even_elim in Heven.
  unfold Add_plain, Add_pos, rb_shape. simpl. rewrite !len_insert.
  destruct (Z.eqb_spec (count rb) windowSize) as [Hfull | Hfree].
  - pose proof (Z.mod_pos_bound (start rb + 2) (windowSize * 2) ltac:(lia)).
    repeat split; try lia.
    mod_cases; first [ halves (start rb / 2 + 1) | halves (start rb / 2 + 1 - windowSize) ].
  - repeat split; try lia. by halves (start rb / 2).
Qed.

Lemma contents_Add_free (price size : Qc) (rb : RingBuffer) :
  rb_shape windowSize rb -> count rb <> windowSize ->
  contents (Add_plain windowSize price size rb).2 = contents rb ++ [(price, size)].
Proof.
  intros (Hlen & Hcount & Hstart & Heven) Hfree.
  apply even_elim in Heven.
  unfold Add_plain, Add_pos. destruct (Z.eqb_spec (count rb) windowSize); [done |].
  unfold contents. simpl.
  replace (Z.to_nat (count rb + 1)) with (S (Z.to_nat (count rb))) by lia.
  rewrite seq_S, map_app. simpl. f_equal.
  - apply map_ext_in. intros i Hi%in_seq.
    unfold slot. simpl. rewrite !len_insert, Hlen.
    mod_cases; f_equal; rewrite !nth_insert_ne by lia; done.
  - unfold slot. simpl. rewrite !len_insert, Hlen.
    replace (count rb + 1 - 1) with (count rb) by lia.
    rewrite Z2Nat.id by lia. rewrite (Z.mul_comm 2 (count rb)).
    set (pos := (_ + _) mod _).
    assert (0 <= pos < windowSize * 2 /\ pos = 2 * (pos / 2)) as [Hpos Hposeven].
    { subst pos. mod_cases; (split; [lia |]);
        first [ halves (start rb / 2 + count rb)
              | halves (start rb / 2 + count rb - windowSize) ]. }
    f_equal; f_equal.
    + rewrite nth_insert_ne by lia. apply nth_insert_eq. unfold len in Hlen. lia.
    + replace (S (Z.to_nat pos)) with (Z.to_nat (pos + 1)) by lia.
      apply nth_insert_eq. rewrite length_insert. unfold len in Hlen. lia.
Qed.

Lemma contents_Add_full (price size : Qc) (rb : RingBuffer) :
  rb_shape windowSize rb -> count rb = windowSize ->
  contents (Add_plain windowSize price size rb).2
  = tail (contents rb) ++ [(price, size)].
Proof.
  intros (Hlen & Hcount & Hstart & Heven) Hfull.
  apply even_elim in Heven.
  unfold Add_plain, Add_pos. destruct (Z.eqb_spec (count rb) windowSize); [| done].
  unfold contents. simpl.
  replace (Z.to_nat (count rb)) with (S (Z.to_nat (windowSize - 1))) by lia.
  rewrite seq_S at 1. rewrite map_app. simpl.
  rewrite <- seq_shift, map_map. f_equal.
  - apply map_ext_in. intros i Hi%in_seq.
    unfold slot. simpl. rewrite !len_insert, Hlen.
    replace (2 * Z.of_nat (S i)) with (2 * Z.of_nat i + 2) by lia.
    mod_cases; f_equal; rewrite !nth_insert_ne by lia; f_equal; lia.
  - unfold slot. simpl. rewrite !len_insert, Hlen.
    rewrite Z2Nat.id by lia.
    unfold len in Hlen.
    mod_cases; f_equal; f_equal;
      solve [ lia
            | rewrite nth_insert_ne by lia; apply nth_insert_at; lia
            | apply nth_insert_at; rewrite ?length_insert; lia ].
Qed.

Lemma contents_head_full (rb : RingBuffer) :
  rb_shape windowSize rb -> count rb = windowSize ->
  head (contents rb)
  = Some (nth (Z.to_nat (start rb)) (data rb) 0%Qc,
          nth (Z.to_nat (start rb + 1)) (data rb) 0%Qc).
Proof.
  intros (Hlen & Hcount & Hstart & Heven) Hfull.
  unfold contents.
  replace (Z.to_nat (count rb)) with (S (Z.to_nat (windowSize - 1))) by lia.
  simpl. unfold slot. rewrite Hlen.
  rewrite Z.add_0_r, Z.mod_small by lia.
  do 3 f_equal. lia.
Qed.

Lemma length_contents (rb : RingBuffer) :
  length (contents rb) = Z.to_nat (count rb).
Proof. unfold contents. by rewrite length_map, length_seq. Qed.

(** [Add] on a buffer that has its shape: it returns, keeps the shape and
    slides the window over the retained pairs. *)
Lemma Add_slide (price size : Qc) (rb : RingBuffer) :
  rb_shape windowSize rb ->
  exists res rb',
    Add windowSize price size rb = Ret (res, rb') /\
    rb_shape windowSize rb' /\
    contents rb' = slide (Z.to_nat windowSize) (price, size) (contents rb) /\
    res = (if count rb =? windowSize
           then match head (contents rb) with Some t => evicted t | None => kept end
           else kept).
Proof.
  intros Hshape.
  exists (Add_plain windowSize price size rb).1, (Add_plain windowSize price size rb).2.
  split; [rewrite Add_plain_eq by done; by destruct (Add_plain _ _ _ _) |].
  split; [by apply Add_plain_shape |].
  pose proof Hshape as (Hlen & Hcount & Hstart & Heven).
  unfold slide. rewrite length_contents.
  destruct (Z.eqb_spec (count rb) windowSize) as [Hfull | Hfree].
  - rewrite (proj2 (Nat.eqb_eq _ _)) by lia.
    split; [by apply contents_Add_full |].
    rewrite contents_head_full by done.
    unfold Add_plain. by rewrite (proj2 (Z.eqb_eq _ _)).
  - rewrite (proj2 (Nat.eqb_neq _ _)) by lia.
    split; [by apply contents_Add_free |].
    unfold Add_plain. by rewrite (proj2 (Z.eqb_neq _ _)).
Qed.

Lemma AddAll_app (l1 l2 : list (Qc * Qc)) (rb : RingBuffer) :
  AddAll windowSize (l1 ++ l2) rb
  = '(ress1, rb1) ← AddAll windowSize l1 rb;
    '(ress2, rb2) ← AddAll windowSize l2 rb1;
    Ret (ress1 ++ ress2, rb2).
Proof.
  revert rb. induction l1 as [| [price size] l1 IH]; intros rb; simpl.
  - by destruct (AddAll windowSize l2 rb) as [[ress2 rb2] | |].
  - destruct (Add windowSize price size rb) as [[res rb1] | |]; simpl; try done.
    rewrite IH.
    destruct (AddAll windowSize l1 rb1) as [[ress1 rb2] | |]; simpl; try done.
    by destruct (AddAll windowSize l2 rb2) as [[ress2 rb3] | |].
Qed.

Lemma count_contents (rb : RingBuffer) :
  rb_shape windowSize rb -> count rb = Z.of_nat (length (contents rb)).
Proof. intros (_ & Hcount & _). rewrite length_contents. lia. Qed.

(** The state of the buffer and the results after any inserts. *)
Lemma AddAll_window (inserts : list (Qc * Qc)) :
  exists ress rb,
    AddAll windowSize inserts (zeroRingBuffer windowSize) = Ret (ress, rb) /\
    rb_shape windowSize rb /\
    contents rb = lastn (Z.to_nat windowSize) inserts /\
    length ress = length inserts /\
    (forall j, (j < length inserts)%nat ->
       ress !! j
       = Some (if (j <? Z.to_nat windowSize)%nat then kept
               else match inserts !! (j - Z.to_nat windowSize)%nat with
                    | Some t => evicted t
                    | None => kept
                    end)).
Proof.
  induction inserts as [| [price size] inserts IH] using rev_ind.
  - exists [], (zeroRingBuffer windowSize). simpl.
    repeat split; try done; try apply zeroRingBuffer_shape.
    intros j Hj. simpl in Hj. lia.
  - destruct IH as (ress & rb & Hrun & Hshape & Hcontents & Hlen & Hress).
    destruct (Add_slide price size rb Hshape) as (res & rb' & HAdd & Hshape' & Hc' & Hres).
    exists (ress ++ [res]), rb'.
    rewrite AddAll_app, Hrun. simpl. rewrite HAdd. simpl.
    split; [done |]. split; [done |].
    split; [by rewrite Hc', Hcontents, slide_lastn by lia |].
    split; [by rewrite !length_app, Hlen |].
    intros j Hj. rewrite length_app in Hj. simpl in Hj.
    destruct (decide (j < length inserts)%nat) as [Hlt | Hge].
    + rewrite lookup_app_l by lia. rewrite Hress by done.
      destruct (j <? Z.to_nat windowSize)%nat; [done |].
      rewrite lookup_app_l by lia. done.
    + assert (j = length inserts) as -> by lia.
      rewrite lookup_app_r by lia. rewrite Hlen, Nat.sub_diag. simpl.
      f_equal. rewrite Hres.
      rewrite (count_contents rb Hshape), Hcontents, length_lastn.
      destruct (Nat.ltb_spec (length inserts) (Z.to_nat windowSize)) as [Hfree | Hfull].
      * rewrite (proj2 (Z.eqb_neq _ _)) by lia. done.
      * rewrite (proj2 (Z.eqb_eq _ _)) by lia.
        rewrite head_lastn by lia.
        rewrite lookup_app_l by lia. done.
Qed.

(** C2. After any sequence of inserts into a buffer of capacity
    [windowSize], the buffer holds min(inserts so far, windowSize) pairs,
    which are the most recent ones in the order they came; the first
    [windowSize] inserts evict nothing, and insert number [windowSize + k]
    evicts and returns the pair given at insert number [k], whatever the
    prices and sizes are. *)
Theorem RingBuffer_fifo (inserts : list (Qc * Qc)) :
  exists ress rb,
    AddAll windowSize inserts (zeroRingBuffer windowSize) = Ret (ress, rb) /\
    count rb = Z.min (Z.of_nat (length inserts)) windowSize /\
    length (contents rb) = Nat.min (length inserts) (Z.to_nat windowSize) /\
    contents rb = lastn (Z.to_nat windowSize) inserts /\
    length ress = length inserts /\
    (forall j, (j < length inserts)%nat -> (j < Z.to_nat windowSize)%nat ->
       ress !! j = Some kept) /\
    (forall k t, inserts !! k = Some t ->
       (Z.to_nat windowSize + k < length inserts)%nat ->
       ress !! (Z.to_nat windowSize + k)%nat = Some (evicted t)).
Proof.
  destruct (AddAll_window inserts) as (ress & rb & Hrun & Hshape & Hc & Hlen & Hress).
  exists ress, rb.
  split; [done |].
  split; [rewrite (count_contents rb Hshape), Hc, length_lastn; lia |].
  split; [by rewrite Hc, length_lastn |].
  split; [done |]. split; [done |]. split.
  - intros j Hj Hfree. rewrite Hress by done.
    by rewrite (proj2 (Nat.ltb_lt _ _)).
  - intros k t Hk Hlt. rewrite Hress by done.
    rewrite (proj2 (Nat.ltb_ge _ _)) by lia.
    replace (Z.to_nat windowSize + k - Z.to_nat windowSize)%nat with k by lia.
    by rewrite Hk.
Qed.

(** C9. On a buffer that has its shape ([count] between 0 and
    [windowSize], [start] even and between 0 and [2 * windowSize], a backing
    array of [2 * windowSize] places), [Add] returns: the indices it
    computes, [start], [start + 1], [pos] and [pos + 1], are all within the
    array, where [pos] and [pos + 1] are the places it writes; and the
    buffer it leaves has the shape again. *)
Theorem Add_in_bounds (price size : Qc) (rb : RingBuffer) :
  rb_shape windowSize rb ->
  exists res rb',
    Add windowSize price size rb = Ret (res, rb') /\
    rb_shape windowSize rb' /\
    (let pos := Add_pos windowSize rb in
     data rb' = <[Z.to_nat (pos + 1) := size]> (<[Z.to_nat pos := price]> (data rb)) /\
     0 <= start rb /\ start rb + 1 < len (data rb) /\
     0 <= pos /\ pos + 1 < len (data rb)).
Proof.
  intros Hshape.
  exists (Add_plain windowSize price size rb).1, (Add_plain windowSize price size rb).2.
  split; [rewrite Add_plain_eq by done; by destruct (Add_plain _ _ _ _) |].
  split; [by apply Add_plain_shape |].
  destruct Hshape as (Hlen & Hcount & Hstart & Heven).
  apply even_elim in Heven. simpl.
  split; [done |]. rewrite Hlen.
  assert (0 <= Add_pos windowSize rb < windowSize * 2
          /\ Add_pos windowSize rb mod 2 = 0) as [Hpos Hposeven].
  { unfold Add_pos.
    destruct (Z.eqb_spec (count rb) windowSize) as [Hfull | Hfree];
      mod_cases; (split; [lia |]);
      first [ halves (start rb / 2 + count rb)
            | halves (start rb / 2 + count rb - windowSize)
            | halves (start rb / 2 + count rb - 2 * windowSize) ]. }
  apply even_elim in Hposeven. lia.
Qed.

End RingBufferFacts.

(** ** Comparisons and sums of rationals *)

Lemma NewRat_zero : NewRat 0 1 = 0%Qc.
Proof. by apply Qc_is_canon. Qed.

Lemma Cmp_nonpos (x : Qc) : (Cmp x 0%Qc <=? 0) = true <-> (x <= 0)%Qc.
Proof.
  unfold Cmp. rewrite Qcle_alt.
  destruct (x ?= 0)%Qc; simpl; split; intros H; done.
Qed.

Lemma Cmp_pos (x : Qc) : (0 < x)%Qc -> (Cmp x 0%Qc <=? 0) = false.
Proof.
  intros Hx. destruct (Cmp x 0%Qc <=? 0) eqn:E; [| done].
  apply Cmp_nonpos in E. by apply Qcle_not_lt in E.
Qed.

Lemma Cmp_zero (x : Qc) : (Cmp x 0%Qc =? 0) = true <-> x = 0%Qc.
Proof.
  unfold Cmp. rewrite Qceq_alt.
  destruct (x ?= 0)%Qc; simpl; split; intros H; done.
Qed.

Lemma sumPV_app (l1 l2 : list (Qc * Qc)) :
  sumPV (l1 ++ l2) = (sumPV l1 + sumPV l2)%Qc.
Proof.
  induction l1 as [| t l1 IH]; simpl.
  - ring.
  - rewrite IH. ring.
Qed.

Lemma sumVolume_app (l1 l2 : list (Qc * Qc)) :
  sumVolume (l1 ++ l2) = (sumVolume l1 + sumVolume l2)%Qc.
Proof.
  induction l1 as [| t l1 IH]; simpl.
  - ring.
  - rewrite IH. ring.
Qed.

Lemma sumVolume_nonneg (l : list (Qc * Qc)) :
  Forall (fun t => (0 < t.2)%Qc) l -> (0 <= sumVolume l)%Qc.
Proof.
  induction 1 as [| t l Ht _ IH]; simpl; [done |].
  apply Qclt_le_weak, Qcplus_pos_nonneg; done.
Qed.

Lemma sumVolume_pos (l : list (Qc * Qc)) :
  Forall (fun t => (0 < t.2)%Qc) l -> l <> [] -> (0 < sumVolume l)%Qc.
Proof.
  intros Hl Hne. destruct Hl as [| t l Ht Hl]; [done |]. simpl.
  apply Qcplus_pos_nonneg; [done |]. by apply sumVolume_nonneg.
Qed.

(** ** The calculator *)

Section CalculatorFacts.

Variable windowSize : Z.
Hypothesis windowSize_pos : 0 < windowSize.
Hypothesis windowSize_fits : windowSize <= 2 ^ 61.
Variable SetString : string -> option Qc.
Variable FloatString : Qc -> Z -> string.

Lemma NewVWAPCalculator_consistent :
  consistent windowSize (NewVWAPCalculator windowSize).
Proof.
  unfold consistent. simpl.
  split; [done |]. split; [by apply zeroRingBuffer_shape |]. done.
Qed.

Lemma Update_locked_slide (price size : Qc) (v : VWAPCalculator) :
  rb_shape windowSize (buffer v) ->
  totalPV v = sumPV (contents (buffer v)) ->
  totalVolume v = sumVolume (contents (buffer v)) ->
  exists v',
    Update_locked windowSize price size v = Ret v' /\
    mu v' = mu v /\
    rb_shape windowSize (buffer v') /\
    contents (buffer v')
    = slide (Z.to_nat windowSize) (price, size) (contents (buffer v)) /\
    totalPV v' = sumPV (contents (buffer v')) /\
    totalVolume v' = sumVolume (contents (buffer v')).
Proof.
  intros Hshape HPV HVol.
  destruct (Add_slide windowSize windowSize_pos windowSize_fits price size
              (buffer v) Hshape) as (res & rb' & HAdd & Hshape' & Hc' & Hres).
  unfold Update_locked. rewrite HAdd. simpl.
  pose proof (count_contents windowSize (buffer v) Hshape) as Hcount.
  assert (exists v', (if removed res
            then oldPrice ← deref (oldPrice res);
                 oldSize ← deref (oldSize res);
                 Ret ((totalPV v - oldPrice * oldSize)%Qc, (totalVolume v - oldSize)%Qc)
            else Ret (totalPV v, totalVolume v)) = Ret v' /\
          (v'.1 + price * size)%Qc = sumPV (contents rb') /\
          (v'.2 + size)%Qc = sumVolume (contents rb')) as ([pv vol] & -> & Hpv & Hvol).
  { rewrite Hc', Hres. unfold slide.
    destruct (Z.eqb_spec (count (buffer v)) windowSize) as [Hfull | Hfree].
    - rewrite (proj2 (Nat.eqb_eq _ _)) by lia.
      destruct (contents (buffer v)) as [| [p0 s0] c]; simpl in *; [lia |].
      eexists. split; [done |]. simpl.
      rewrite sumPV_app, sumVolume_app, HPV, HVol. simpl. split; ring.
    - rewrite (proj2 (Nat.eqb_neq _ _)) by lia. simpl.
      eexists. split; [done |]. simpl.
      rewrite sumPV_app, sumVolume_app, HPV, HVol. simpl. split; ring. }
  simpl. eexists. split; [done |]. simpl. done.
Qed.

(** An accepted update: both strings spell positive numbers. *)
Lemma Update_accepts (priceStr sizeStr : string) (price size : Qc) (v : VWAPCalculator) :
  consistent windowSize v ->
  valid SetString (priceStr, sizeStr) (price, size) ->
  exists v',
    Update windowSize SetString priceStr sizeStr v = Ret (None, v') /\
    consistent windowSize v' /\
    contents (buffer v')
    = slide (Z.to_nat windowSize) (price, size) (contents (buffer v)).
Proof.
  intros (Hmu & Hshape & HPV & HVol) (Hp & Hs & Hppos & Hspos). simpl in *.
  unfold Update. rewrite NewRat_zero.
  rewrite Hp, Hs, (Cmp_pos price), (Cmp_pos size) by done. simpl.
  rewrite Hmu. simpl.
  destruct (Update_locked_slide price size
              {| mu := true; buffer := buffer v;
                 totalPV := totalPV v; totalVolume := totalVolume v |})
    as (v' & Hrun & Hmu' & Hshape' & Hc' & HPV' & HVol'); try done.
  rewrite Hrun. simpl in *. rewrite Hmu'. simpl.
  eexists. split; [done |]. split; [| done].
  unfold consistent. simpl. done.
Qed.

(** A rejected update: a string that spells no number or one that is not
    positive. The state is the one given, whatever it is. *)
Lemma Update_rejects (priceStr sizeStr : string) (v : VWAPCalculator) :
  (forall price size, ~ valid SetString (priceStr, sizeStr) (price, size)) ->
  Update windowSize SetString priceStr sizeStr v = Ret (Some invalidTrade, v).
Proof.
  intros Hinvalid. unfold Update. rewrite NewRat_zero.
  destruct (SetString priceStr) as [price |] eqn:Hp; [| done].
  destruct (SetString sizeStr) as [size |] eqn:Hs; [| done].
  destruct (Cmp price 0%Qc <=? 0) eqn:Ep; [done |].
  destruct (Cmp size 0%Qc <=? 0) eqn:Es; [done |].
  exfalso. apply (Hinvalid price size). unfold valid. simpl.
  repeat split; try done.
  - apply Qcnot_le_lt. intros H. apply Cmp_nonpos in H. congruence.
  - apply Qcnot_le_lt. intros H. apply Cmp_nonpos in H. congruence.
Qed.

Lemma valid_dec (priceStr sizeStr : string) :
  (exists price size, valid SetString (priceStr, sizeStr) (price, size)) \/
  (forall price size, ~ valid SetString (priceStr, sizeStr) (price, size)).
Proof.
  unfold valid. simpl.
  destruct (SetString priceStr) as [price |]; [| right; intros ? ? (? & _); done].
  destruct (SetString sizeStr) as [size |]; [| right; intros ? ? (_ & ? & _); done].
  destruct (Qclt_le_dec 0 price) as [Hp | Hp];
    [| right; intros ? ? (? & ? & ? & ?); simplify_eq; by apply Qcle_not_lt in Hp].
  destruct (Qclt_le_dec 0 size) as [Hs | Hs];
    [| right; intros ? ? (? & ? & ? & ?); simplify_eq; by apply Qcle_not_lt in Hs].
  left. by exists price, size.
Qed.

Lemma Calculate_value (v : VWAPCalculator) :
  mu v = false ->
  Calculate FloatString v
  = Ret (if decide (totalVolume v = 0%Qc) then "0"%string
         else FloatString (totalPV v / totalVolume v)%Qc 4, v).
Proof.
  intros Hmu. destruct v as [m b pv vol]. simpl in *. subst m.
  unfold Calculate, Quo. rewrite NewRat_zero. simpl.
  destruct (Cmp vol 0%Qc =? 0) eqn:E; simpl.
  - apply Cmp_zero in E. by destruct (decide (vol = 0%Qc)).
  - assert (vol <> 0%Qc) by (intros H; apply Cmp_zero in H; congruence).
    by destruct (decide (vol = 0%Qc)).
Qed.

Local Abbreviation run' := (run windowSize SetString FloatString).

Lemma run_app (calls1 calls2 : list Call) (v : VWAPCalculator) :
  run' (calls1 ++ calls2) v
  = '(replies1, v1) ← run' calls1 v;
    '(replies2, v2) ← run' calls2 v1;
    Ret (replies1 ++ replies2, v2).
Proof.
  revert v. induction calls1 as [| call calls1 IH]; intros v; simpl.
  - by destruct (run' calls2 v) as [[replies2 v2] | |].
  - set (first := match call with CallUpdate _ _ => _ | CallCalculate => _ end).
    destruct first as [[reply v1] | |]; simpl; try done.
    rewrite IH.
    destruct (run' calls1 v1) as [[replies1 v2] | |]; simpl; try done.
    by destruct (run' calls2 v2) as [[replies2 v3] | |].
Qed.



(** The calculator after a run of accepted updates. *)
Lemma run_updates (trades : list (string * string)) (vals : list (Qc * Qc)) :
  Forall2 (valid SetString) trades vals ->
  exists v,
    run' (updates trades) (NewVWAPCalculator windowSize)
    = Ret (replicate (length trades) (Updated None), v) /\
    consistent windowSize v /\
    contents (buffer v) = lastn (Z.to_nat windowSize) vals.
Proof.
  revert vals. induction trades as [| [priceStr sizeStr] trades IH] using rev_ind;
    intros vals Hvalid.
  - apply Forall2_nil_inv_l in Hvalid as ->.
    exists (NewVWAPCalculator windowSize).
    split; [done |]. split; [apply NewVWAPCalculator_consistent | done].
  - apply Forall2_app_inv_l in Hvalid as (vals1 & vals2 & Hvals1 & Hvals2 & ->).
    apply Forall2_cons_inv_l in Hvals2 as ([price size] & vals3 & Hval & Hnil & ->).
    apply Forall2_nil_inv_l in Hnil as ->.
    destruct (IH vals1 Hvals1) as (v & Hrun & Hv & Hc).
    destruct (Update_accepts _ _ _ _ v Hv Hval) as (v' & HUpdate & Hv' & Hc').
    exists v'. unfold updates. rewrite map_app, run_app.
    fold (updates trades). rewrite Hrun. simpl. rewrite HUpdate. simpl.
    split.
    + rewrite length_app. simpl.
      replace (length trades + 1)%nat with (S (length trades)) by lia.
      by rewrite replicate_S_end.
    + split; [done |]. rewrite Hc', Hc. apply slide_lastn. lia.
Qed.

(** C1. After [k] updates with positive prices and sizes on a fresh
    calculator, all of them accepted, the running sums are the sums of
    price times size and of size over the last min(k, windowSize) updates
    (over all of them when [k <= windowSize]); for [k >= 1] the sum of sizes
    is positive and [Calculate] returns the quotient of the two sums,
    written with four decimals; for [k = 0] it returns the text 0. *)
Theorem Calculate_window (trades : list (string * string)) (vals : list (Qc * Qc)) :
  Forall2 (valid SetString) trades vals ->
  exists v,
    let window := lastn (Z.to_nat windowSize) vals in
    run' (updates trades) (NewVWAPCalculator windowSize)
    = Ret (replicate (length trades) (Updated None), v) /\
    length window = Nat.min (length trades) (Z.to_nat windowSize) /\
    ((length trades <= Z.to_nat windowSize)%nat -> window = vals) /\
    contents (buffer v) = window /\
    totalPV v = sumPV window /\
    totalVolume v = sumVolume window /\
    (trades <> [] -> (0 < sumVolume window)%Qc) /\
    Calculate FloatString v
    = Ret (match trades with
           | [] => "0"%string
           | _ => FloatString (sumPV window / sumVolume window)%Qc 4
           end, v).
Proof.
  intros Hvalid.
  destruct (run_updates trades vals Hvalid) as (v & Hrun & (Hmu & _ & HPV & HVol) & Hc).
  pose proof (Forall2_length _ _ _ Hvalid) as Hlen.
  exists v. simpl.
  split; [done |].
  split; [rewrite length_lastn; lia |].
  split; [intros Hk; apply lastn_short; lia |].
  split; [done |].
  rewrite Hc in HPV, HVol.
  split; [done |]. split; [done |].
  assert (trades <> [] -> (0 < sumVolume (lastn (Z.to_nat windowSize) vals))%Qc) as Hpos.
  { intros Hne. apply sumVolume_pos.
    - unfold lastn. apply Forall_drop.
      clear -Hvalid. induction Hvalid as [| t val ts vs Hval _ IH]; constructor.
      + apply Hval.
      + done.
    - intros Hnil. apply (f_equal length) in Hnil.
      rewrite length_lastn in Hnil. simpl in Hnil.
      destruct trades; simpl in *; [done | lia]. }
  split; [done |].
  rewrite Calculate_value by done. rewrite HPV, HVol.
  destruct trades as [| trade trades].
  - apply Forall2_nil_inv_l in Hvalid as ->. done.
  - destruct (decide (sumVolume (lastn (Z.to_nat windowSize) vals) = 0%Qc))
      as [Hzero | _]; [| done].
    exfalso. specialize (Hpos ltac:(done)).
    apply Qclt_not_eq in Hpos. congruence.
Qed.


(** C4. [Update] returns an error when the price, the size or both are not
    positive, and then leaves the calculator as it was, whatever its state,
    so that [Calculate] returns the same value before and after; and it
    returns no error for a positive price and a positive size. *)
Theorem Update_validates (priceStr sizeStr : string) (price size : Qc) (v : VWAPCalculator) :
  SetString priceStr = Some price ->
  SetString sizeStr = Some size ->
  ((price <= 0)%Qc \/ (size <= 0)%Qc ->
   Update windowSize SetString priceStr sizeStr v = Ret (Some invalidTrade, v) /\
   (mu v = false ->
    exists value,
      run' [CallCalculate; CallUpdate priceStr sizeStr; CallCalculate] v
      = Ret ([Calculated value; Updated (Some invalidTrade); Calculated value], v))) /\
  ((0 < price)%Qc /\ (0 < size)%Qc ->
   consistent windowSize v ->
   exists v', Update windowSize SetString priceStr sizeStr v = Ret (None, v')).
Proof.
  intros Hp Hs. split.
  - intros Hnonpos.
    assert (Update windowSize SetString priceStr sizeStr v = Ret (Some invalidTrade, v))
      as HUpdate.
    { apply Update_rejects. intros price' size' (Hp' & Hs' & Hppos & Hspos).
      simpl in *. simplify_eq.
      destruct Hnonpos as [H | H]; eapply Qcle_not_lt; done. }
    split; [done |].
    intros Hmu. simpl. rewrite Calculate_value by done. simpl.
    rewrite HUpdate. simpl. rewrite Calculate_value by done. simpl.
    by eexists.
  - intros [Hppos Hspos] Hv.
    destruct (Update_accepts priceStr sizeStr price size v Hv) as (v' & HUpdate & _).
    { by unfold valid. }
    by exists v'.
Qed.

(** C5. [Calculate] on a calculator whose [totalVolume] is zero, the fresh
    one among them, returns the text 0: it does not panic and divides
    nothing by zero. On one whose [totalVolume] is not zero it returns
    [totalPV / totalVolume] written with four decimals. *)
Theorem Calculate_total (v : VWAPCalculator) :
  mu v = false ->
  Calculate FloatString (NewVWAPCalculator windowSize)
  = Ret ("0"%string, NewVWAPCalculator windowSize) /\
  (totalVolume v = 0%Qc -> Calculate FloatString v = Ret ("0"%string, v)) /\
  (totalVolume v <> 0%Qc ->
   Calculate FloatString v = Ret (FloatString (totalPV v / totalVolume v)%Qc 4, v)).
Proof.
  intros Hmu. split; [done |].
  rewrite Calculate_value by done.
  split; intros H; by destruct (decide (totalVolume v = 0%Qc)).
Qed.

(** C10. [Calculate] hands the calculator back with every field as it was
    (the buffer with its array, [start] and [count], [totalPV],
    [totalVolume], and the mutex free again), so any number of calls in a
    row return one and the same value. *)
Theorem Calculate_frame (v : VWAPCalculator) :
  mu v = false ->
  exists value,
    Calculate FloatString v = Ret (value, v) /\
    forall n : nat,
      run' (replicate n CallCalculate) v = Ret (replicate n (Calculated value), v).
Proof.
  intros Hmu. eexists. split; [by apply Calculate_value |].
  induction n as [| n IH]; [done |].
  simpl. rewrite Calculate_value by done. simpl.
  rewrite IH. done.
Qed.

End CalculatorFacts.

(** ** The dispatcher and the retry loop *)

Section FeedFacts.

Variable windowSize : Z.
Hypothesis windowSize_pos : 0 < windowSize.
Hypothesis windowSize_fits : windowSize <= 2 ^ 61.
Variable SetString : string -> option Qc.
Variable FloatString : Qc -> Z -> string.

Local Abbreviation processMessage' := (processMessage windowSize SetString FloatString).
Local Abbreviation mainTurn' := (mainTurn windowSize SetString FloatString).
Local Abbreviation mainLoop' := (mainLoop windowSize SetString FloatString).
Local Abbreviation main' := (main windowSize SetString FloatString).

Local Abbreviation registry_ok' := (registry_ok windowSize).

Lemma mainInit_ok : registry_ok' (calculators (mainInit windowSize)).
Proof.
  unfold registry_ok, mainInit. simpl.
  repeat (apply map_Forall_insert_2; [by apply NewVWAPCalculator_consistent |]).
  apply map_Forall_empty.
Qed.

Lemma Unmarshal_strings (type pid priceStr sizeStr : string) :
  Unmarshal (frame type pid (JString priceStr) (JString sizeStr)) zeroTrade
  = ({| Type_ := type; ProductID := pid; Price := priceStr; Size := sizeStr |}, None).
Proof. done. Qed.

Lemma processMessage_total (message : Message) (calculators : gmap string VWAPCalculator) :
  registry_ok' calculators ->
  exists calculators' out,
    processMessage' message calculators = Ret (calculators', out) /\
    registry_ok' calculators'.
Proof.
  intros Hok. unfold processMessage.
  destruct (Unmarshal message zeroTrade) as [trade [err |]]; [by eexists _, _ |].
  destruct (negb (String.eqb (Type_ trade) "match")); [by eexists _, _ |].
  destruct (calculators !! ProductID trade) as [calculator |] eqn:Hlookup;
    [| by eexists _, _].
  pose proof (Hok _ _ Hlookup) as Hv. simpl in Hv.
  destruct (valid_dec SetString (Price trade) (Size trade))
    as [(price & size & Hvalid) | Hinvalid].
  - destruct (Update_accepts windowSize windowSize_pos windowSize_fits SetString
                _ _ _ _ calculator Hv Hvalid) as (v' & -> & Hv' & _).
    simpl. rewrite Calculate_value by apply Hv'. simpl.
    eexists _, _. split; [done |].
    by repeat apply map_Forall_insert_2.
  - rewrite Update_rejects by done. simpl.
    eexists _, _. split; [done |].
    by apply map_Forall_insert_2.
Qed.

Lemma receive_total (frames : list Message) (readErr : error)
  (calculators : gmap string VWAPCalculator) :
  registry_ok' calculators ->
  exists err calculators' out,
    receive windowSize SetString FloatString frames readErr calculators
    = Ret (err, calculators', out) /\
    registry_ok' calculators'.
Proof.
  revert calculators. induction frames as [| message frames IH]; intros calculators Hok.
  - by eexists _, _, _.
  - simpl.
    destruct (processMessage_total message calculators Hok) as (c1 & out1 & -> & Hok1).
    simpl. destruct (IH c1 Hok1) as (err & c2 & out2 & -> & Hok2). simpl.
    by eexists _, _, _.
Qed.

Lemma handleConnection_total (conn : Conn) (calculators : gmap string VWAPCalculator) :
  registry_ok' calculators ->
  exists err calculators' out,
    handleConnection windowSize SetString FloatString conn calculators
    = Ret (err, calculators', out) /\
    registry_ok' calculators'.
Proof.
  intros Hok. unfold handleConnection, subscribe.
  destruct (writeErr conn); [by eexists _, _, _ |].
  destruct (receive_total (frames conn) (readErr conn) calculators Hok)
    as (err & c' & out & -> & Hok').
  simpl. by eexists _, _, _.
Qed.

(** A dial that succeeds: [main] goes on with the counter at zero. *)
Lemma mainTurn_DialOk (s : MainState) (conn : Conn) :
  registry_ok' (calculators s) ->
  exists s',
    mainTurn' s (DialOk conn) = Ret (Looping s') /\
    retryCount s' = 0 /\
    registry_ok' (calculators s').
Proof.
  intros Hok. unfold mainTurn. simpl.
  destruct (handleConnection_total conn (calculators s) Hok)
    as (err & c' & out & -> & Hok').
  simpl. by eexists.
Qed.

(** A dial that fails: the counter goes up by one, and [main] returns when
    this takes it beyond [maxRetries]. *)
Lemma mainTurn_DialErr (s : MainState) (err : error) :
  0 <= retryCount s <= maxRetries ->
  mainTurn' s (DialErr err)
  = Ret ((if retryCount s + 1 >? maxRetries then Returned else Looping)
           {| calculators := calculators s;
              retryCount := retryCount s + 1;
              output := output s
                        ++ [Infof "Connecting to %s" [websocketURL]]
                        ++ (if retryCount s + 1 >? maxRetries
                            then [Errorf "Max connection retries (%d) reached"
                                    [utoa maxRetries]]
                            else [Sleep retryDelay]) |}).
Proof.
  intros Hcount. unfold mainTurn. simpl.
  unfold int_add. rewrite wrap_small by (unfold maxRetries in *; pow_consts; lia).
  by destruct (retryCount s + 1 >? maxRetries).
Qed.

Lemma attempts_app (out1 out2 : list Event) :
  attempts (out1 ++ out2) = (attempts out1 + attempts out2)%nat.
Proof. unfold attempts. by rewrite filter_app, length_app. Qed.

(** A run of failures that the counter can take. *)
Lemma mainLoop_failures (errs : list error) (s : MainState) :
  0 <= retryCount s ->
  retryCount s + Z.of_nat (length errs) <= maxRetries ->
  exists s',
    mainLoop' (map DialErr errs) s = Ret (Looping s', []) /\
    calculators s' = calculators s /\
    retryCount s' = retryCount s + Z.of_nat (length errs) /\
    attempts (output s') = (attempts (output s) + length errs)%nat.
Proof.
  revert s. induction errs as [| err errs IH]; intros s Hpos Hle.
  - exists s. simpl. repeat split; try done; lia.
  - simpl in *. rewrite mainTurn_DialErr by lia.
    destruct (Z.gtb_spec (retryCount s + 1) maxRetries) as [Hgt | _]; [lia |].
    simpl.
    match goal with
    | |- context [mainLoop _ _ _ _ ?s1] =>
        destruct (IH s1) as (s' & -> & Hc & Hr & Ha); simpl; try lia
    end.
    simpl in Hc, Hr, Ha.
    exists s'. split; [done |]. split; [done |]. split; [lia |].
    rewrite Ha, !attempts_app. unfold attempts. simpl. lia.
Qed.

Lemma mainLoop_app (script1 script2 : list Dial) (s s1 : MainState) :
  mainLoop' script1 s = Ret (Looping s1, []) ->
  mainLoop' (script1 ++ script2) s = mainLoop' script2 s1.
Proof.
  revert s. induction script1 as [| dial script1 IH]; intros s Hrun; simpl in *.
  - by simplify_eq.
  - destruct (mainTurn' s dial) as [[s2 | s2] | |]; simpl in *; try done.
    by apply IH.
Qed.

Lemma longestFailRun_ge (current : nat) (script : list Dial) :
  (current <= longestFailRun current script)%nat.
Proof.
  revert current. induction script as [| [err | conn] script IH]; intros current; simpl.
  - lia.
  - specialize (IH (S current)). lia.
  - lia.
Qed.

Lemma mainLoop_goes_on (script : list Dial) (s : MainState) :
  registry_ok' (calculators s) ->
  0 <= retryCount s ->
  (longestFailRun (Z.to_nat (retryCount s)) script <= Z.to_nat maxRetries)%nat ->
  exists s',
    mainLoop' script s = Ret (Looping s', []) /\
    registry_ok' (calculators s') /\
    0 <= retryCount s' <= maxRetries.
Proof.
  revert s. induction script as [| [err | conn] script IH]; intros s Hok Hpos Hrun.
  - exists s. simpl in *. split; [done |]. split; [done |].
    unfold maxRetries in *. lia.
  - simpl in Hrun.
    pose proof (longestFailRun_ge (S (Z.to_nat (retryCount s))) script) as Hge.
    assert (retryCount s + 1 <= maxRetries) as Hle by (unfold maxRetries in *; lia).
    simpl. rewrite mainTurn_DialErr by lia.
    destruct (Z.gtb_spec (retryCount s + 1) maxRetries) as [Hgt | _]; [lia |].
    simpl. apply IH; simpl; [done | lia |].
    by replace (Z.to_nat (retryCount s + 1)) with (S (Z.to_nat (retryCount s))) by lia.
  - simpl in Hrun.
    destruct (mainTurn_DialOk s conn Hok) as (s1 & Hturn & Hzero & Hok1).
    simpl. rewrite Hturn. simpl.
    apply IH; [done | lia |]. rewrite Hzero.
    change (Z.to_nat 0) with 0%nat. lia.
Qed.

(** C6, as the code has it. With [maxRetries = 5], [main] makes the first
    dial and five more: after six failures in a row, counted from the start
    or from a dial that succeeded, it logs that the retries are used up and
    returns. The sixth dial is made and a seventh never is; after the first
    five failures [main] is still in its loop. The calculators are those
    it had before the failures, and [Calculate] still answers on each. *)
Theorem main_gives_up (s : MainState) (errs : list error) (rest : list Dial) :
  retryCount s = 0 ->
  length errs = S (Z.to_nat maxRetries) ->
  (exists s5, mainLoop' (map DialErr (take 5 errs)) s = Ret (Looping s5, []) /\
              attempts (output s5) = (attempts (output s) + 5)%nat) /\
  exists s',
    mainLoop' (map DialErr errs ++ rest) s = Ret (Returned s', rest) /\
    attempts (output s') = (attempts (output s) + 6)%nat /\
    last (output s')
    = Some (Errorf "Max connection retries (%d) reached" [utoa maxRetries]) /\
    calculators s' = calculators s /\
    (forall pid v, calculators s !! pid = Some v -> mu v = false ->
       exists value, Calculate FloatString v = Ret (value, v)).
Proof.
  intros Hzero Hlen. unfold maxRetries in Hlen. simpl in Hlen.
  destruct (mainLoop_failures (take 5 errs) s) as (s5 & Hrun & Hc & Hr & Ha).
  { lia. }
  { rewrite length_take. unfold maxRetries. lia. }
  rewrite length_take, Hlen in Hr, Ha. simpl in Hr, Ha.
  split; [by exists s5 |].
  replace (map DialErr errs) with (map DialErr (take 5 errs ++ drop 5 errs))
    by (by rewrite take_drop).
  rewrite map_app, <- app_assoc.
  rewrite (mainLoop_app _ _ _ _ Hrun).
  destruct (drop 5 errs) as [| err [| err' errs']] eqn:Hdrop;
    apply (f_equal length) in Hdrop; rewrite length_drop, Hlen in Hdrop;
    simpl in Hdrop; try lia.
  simpl. rewrite mainTurn_DialErr by (unfold maxRetries; lia).
  rewrite Hr, Hzero. simpl.
  eexists. split; [done |]. simpl.
  split; [rewrite !attempts_app, Ha; unfold attempts; simpl; lia |].
  split; [by rewrite last_app |].
  split; [done |].
  intros pid v _ Hmu. eexists. by apply Calculate_value.
Qed.

(** C7. A dial that succeeds puts the retry counter back to zero, so
    [maxRetries] bounds only the failures that follow one another: on any
    script whose runs of failures are no longer than [maxRetries], [main]
    never returns. *)
Theorem retries_count_consecutive_failures (script : list Dial) :
  (longestFailRun 0 script <= Z.to_nat maxRetries)%nat ->
  (exists s, main' script = Ret (Looping s, [])) /\
  (forall s conn,
     registry_ok' (calculators s) ->
     exists s', mainTurn' s (DialOk conn) = Ret (Looping s') /\ retryCount s' = 0).
Proof.
  intros Hrun. split.
  - destruct (mainLoop_goes_on script (mainInit windowSize)) as (s & Hs & _).
    + apply mainInit_ok.
    + done.
    + done.
    + by exists s.
  - intros s conn Hok.
    destruct (mainTurn_DialOk s conn Hok) as (s' & Hturn & Hzero & _).
    by exists s'.
Qed.

(** C8, as the code has it. A frame with the members type, product_id,
    price and size, each a JSON string, decodes into a trade; when the type
    is match, the product is a key of the calculators and the price and the
    size spell positive numbers, [Update] accepts the trade, the window of
    that calculator slides over it and the new value is printed. A frame
    whose price or size is a JSON number is not decoded: [Unmarshal] reports
    a type error, the frame is dropped and no calculator changes. *)
Theorem processMessage_frame (type pid priceStr sizeStr : string)
  (calculators : gmap string VWAPCalculator) :
  Unmarshal (frame type pid (JString priceStr) (JString sizeStr)) zeroTrade
  = ({| Type_ := type; ProductID := pid; Price := priceStr; Size := sizeStr |}, None) /\
  (forall price size calculator,
     type = "match"%string ->
     calculators !! pid = Some calculator ->
     consistent windowSize calculator ->
     valid SetString (priceStr, sizeStr) (price, size) ->
     exists calculator' vwap,
       Update windowSize SetString priceStr sizeStr calculator = Ret (None, calculator') /\
       contents (buffer calculator')
       = slide (Z.to_nat windowSize) (price, size) (contents (buffer calculator)) /\
       Calculate FloatString calculator' = Ret (vwap, calculator') /\
       processMessage' (frame type pid (JString priceStr) (JString sizeStr)) calculators
       = Ret (<[pid := calculator']> calculators,
              [Infof "Received trade: %s %s @ %s" [pid; sizeStr; priceStr];
               Printf "%s VWAP: %s\n" [pid; vwap]])) /\
  (forall lit size,
     processMessage' (frame type pid (JNumber lit) size) calculators
     = Ret (calculators,
            [Errorf "JSON decode error: %v" [typeErrorField (JNumber lit) FPrice]])) /\
  (forall lit,
     processMessage' (frame type pid (JString priceStr) (JNumber lit)) calculators
     = Ret (calculators,
            [Errorf "JSON decode error: %v" [typeErrorField (JNumber lit) FSize]])).
Proof.
  split; [done |]. split; [| split].
  - intros price size calculator -> Hlookup Hv Hvalid.
    destruct (Update_accepts windowSize windowSize_pos windowSize_fits SetString
                _ _ _ _ calculator Hv Hvalid) as (v' & HUpdate & Hv' & Hc').
    exists v'. eexists. split; [done |]. split; [done |].
    split; [apply Calculate_value, Hv' |].
    unfold processMessage. rewrite Unmarshal_strings. simpl.
    rewrite Hlookup, HUpdate. simpl.
    rewrite Calculate_value by apply Hv'. simpl.
    by rewrite insert_insert_eq.
  - intros lit size. by destruct size.
  - done.
Qed.

End FeedFacts.

(** ** The model at work *)

(** The theorems above hold for every window size from 1 to 2^61 and for
    every reading and writing of decimals. Below they are applied to a
    window of three trades and to the source's window of 200, with the
    decimal instances. *)

Lemma small_window : 0 < 3 /\ 3 <= 2 ^ 61.
Proof. split; [lia | vm_compute; discriminate]. Defined.

(** The cases of [TestVWAPCalculator_EdgeCases] in [vwap_test.go], with the
    source's window of 200, and the scenario of a window of three. *)

Example test_EmptyCalculator :
  lastReply (run 200 decimalSetString decimalFloatString
               [CallCalculate] (NewVWAPCalculator 200))
  = Some (Calculated "0").
Proof. vm_compute. reflexivity. Qed.

Example test_SingleTrade :
  lastReply (run 200 decimalSetString decimalFloatString
               [CallUpdate "100" "2"; CallCalculate] (NewVWAPCalculator 200))
  = Some (Calculated "100.0000").
Proof. vm_compute. reflexivity. Qed.

Example test_FullWindow :
  lastReply (run 200 decimalSetString decimalFloatString
               (updates (unit_trades 200) ++ [CallCalculate]) (NewVWAPCalculator 200))
  = Some (Calculated "100.5000").
Proof. vm_compute. reflexivity. Qed.

Example test_WindowOverflow :
  lastReply (run 200 decimalSetString decimalFloatString
               (updates (unit_trades 201) ++ [CallCalculate]) (NewVWAPCalculator 200))
  = Some (Calculated "101.5000").
Proof. vm_compute. reflexivity. Qed.

Example test_InvalidInputs :
  run 200 decimalSetString decimalFloatString
    [CallUpdate "-100" "1"; CallUpdate "100" "-1"; CallUpdate "-50" "-2"]
    (NewVWAPCalculator 200)
  = Ret ([Updated (Some invalidTrade); Updated (Some invalidTrade);
          Updated (Some invalidTrade)], NewVWAPCalculator 200).
Proof. vm_compute. reflexivity. Qed.

Example scenario_window_of_three :
  lastReply (run 3 decimalSetString decimalFloatString
               [CallUpdate "10" "1"; CallUpdate "20" "1"; CallUpdate "30" "1";
                CallCalculate] (NewVWAPCalculator 3))
  = Some (Calculated "20.0000") /\
  lastReply (run 3 decimalSetString decimalFloatString
               [CallUpdate "10" "1"; CallUpdate "20" "1"; CallUpdate "30" "1";
                CallUpdate "40" "1"; CallCalculate] (NewVWAPCalculator 3))
  = Some (Calculated "30.0000").
Proof. split; vm_compute; reflexivity. Qed.

Lemma four_trades_valid :
  Forall2 (valid decimalSetString)
    [("10", "1"); ("20", "1"); ("30", "1"); ("40", "1")]%string
    [(NewRat 10 1, NewRat 1 1); (NewRat 20 1, NewRat 1 1);
     (NewRat 30 1, NewRat 1 1); (NewRat 40 1, NewRat 1 1)].
Proof. repeat constructor. Defined.

Lemma Calculate_window_witness :
  let trades := [("10", "1"); ("20", "1"); ("30", "1"); ("40", "1")]%string in
  let vals := [(NewRat 10 1, NewRat 1 1); (NewRat 20 1, NewRat 1 1);
               (NewRat 30 1, NewRat 1 1); (NewRat 40 1, NewRat 1 1)] in
  (0 < 3 /\ 3 <= 2 ^ 61) /\
  Forall2 (valid decimalSetString) trades vals /\
  exists v,
    run 3 decimalSetString decimalFloatString (updates trades) (NewVWAPCalculator 3)
    = Ret (replicate 4 (Updated None), v) /\
    contents (buffer v)
    = [(NewRat 20 1, NewRat 1 1); (NewRat 30 1, NewRat 1 1); (NewRat 40 1, NewRat 1 1)] /\
    Calculate decimalFloatString v = Ret ("30.0000"%string, v).
Proof.
  intros trades vals.
  split; [exact small_window |].
  split; [exact four_trades_valid |].
  destruct (Calculate_window 3 (proj1 small_window) (proj2 small_window)
              decimalSetString decimalFloatString trades vals four_trades_valid)
    as (v & Hrun & _ & _ & Hc & _ & _ & _ & Hcalc).
  exists v. split; [exact Hrun |]. split; [exact Hc |]. exact Hcalc.
Defined.

Lemma RingBuffer_fifo_witness :
  let inserts := [(NewRat 10 1, NewRat 1 1); (NewRat 20 1, NewRat 1 1);
                  (NewRat 30 1, NewRat 1 1); (NewRat 40 1, NewRat 1 1)] in
  (0 < 3 /\ 3 <= 2 ^ 61) /\
  exists ress rb,
    AddAll 3 inserts (zeroRingBuffer 3) = Ret (ress, rb) /\
    count rb = 3 /\
    contents rb
    = [(NewRat 20 1, NewRat 1 1); (NewRat 30 1, NewRat 1 1); (NewRat 40 1, NewRat 1 1)] /\
    ress !! 0%nat = Some kept /\
    ress !! 3%nat = Some (evicted (NewRat 10 1, NewRat 1 1)).
Proof.
  intros inserts.
  split; [exact small_window |].
  destruct (RingBuffer_fifo 3 (proj1 small_window) (proj2 small_window) inserts)
    as (ress & rb & Hrun & Hcount & _ & Hc & _ & Hkept & Hev).
  exists ress, rb.
  split; [exact Hrun |]. split; [exact Hcount |]. split; [exact Hc |].
  split.
  - apply Hkept; simpl; lia.
  - apply (Hev 0%nat); [reflexivity | simpl; lia].
Defined.

Lemma wrapped_buffer_shape : rb_shape 3 wrapped_buffer.
Proof. unfold rb_shape. simpl. repeat split; try lia; reflexivity. Defined.

Lemma Add_in_bounds_witness :
  (0 < 3 /\ 3 <= 2 ^ 61) /\
  rb_shape 3 wrapped_buffer /\
  exists res rb',
    Add 3 (NewRat 40 1) (NewRat 1 1) wrapped_buffer = Ret (res, rb') /\
    rb_shape 3 rb' /\
    Add_pos 3 wrapped_buffer = 4.
Proof.
  split; [exact small_window |].
  split; [exact wrapped_buffer_shape |].
  destruct (Add_in_bounds 3 (proj1 small_window) (proj2 small_window)
              (NewRat 40 1) (NewRat 1 1) wrapped_buffer wrapped_buffer_shape)
    as (res & rb' & HAdd & Hshape & _).
  exists res, rb'. split; [exact HAdd |]. split; [exact Hshape | reflexivity].
Defined.


Lemma Update_validates_witness :
  (0 < 3 /\ 3 <= 2 ^ 61) /\
  (decimalSetString "-100" = Some (NewRat (-100) 1) /\
   decimalSetString "1" = Some (NewRat 1 1) /\
   ((NewRat (-100) 1 <= 0)%Qc \/ (NewRat 1 1 <= 0)%Qc) /\
   Update 3 decimalSetString "-100" "1" (NewVWAPCalculator 3)
   = Ret (Some invalidTrade, NewVWAPCalculator 3) /\
   run 3 decimalSetString decimalFloatString
     [CallCalculate; CallUpdate "-100" "1"; CallCalculate] (NewVWAPCalculator 3)
   = Ret ([Calculated "0"; Updated (Some invalidTrade); Calculated "0"],
          NewVWAPCalculator 3)) /\
  (decimalSetString "100" = Some (NewRat 100 1) /\
   decimalSetString "2" = Some (NewRat 2 1) /\
   ((0 < NewRat 100 1)%Qc /\ (0 < NewRat 2 1)%Qc) /\
   consistent 3 (NewVWAPCalculator 3) /\
   exists v', Update 3 decimalSetString "100" "2" (NewVWAPCalculator 3) = Ret (None, v')).
Proof.
  assert ((NewRat (-100) 1 <= 0)%Qc \/ (NewRat 1 1 <= 0)%Qc) as Hnonpos.
  { left. vm_compute. discriminate. }
  assert ((0 < NewRat 100 1)%Qc /\ (0 < NewRat 2 1)%Qc) as Hpos.
  { split; reflexivity. }
  assert (consistent 3 (NewVWAPCalculator 3)) as Hnew.
  { unfold consistent, rb_shape. simpl. repeat split; try lia; reflexivity. }
  split; [exact small_window |]. split.
  - split; [reflexivity |]. split; [reflexivity |].
    split; [exact Hnonpos |].
    destruct (Update_validates 3 (proj1 small_window) (proj2 small_window)
                decimalSetString decimalFloatString "-100" "1"
                (NewRat (-100) 1) (NewRat 1 1) (NewVWAPCalculator 3)
                eq_refl eq_refl) as [Hreject _].
    destruct (Hreject Hnonpos) as [HUpdate Hcalc].
    split; [exact HUpdate |]. reflexivity.
  - split; [reflexivity |]. split; [reflexivity |].
    split; [exact Hpos |]. split; [exact Hnew |].
    destruct (Update_validates 3 (proj1 small_window) (proj2 small_window)
                decimalSetString decimalFloatString "100" "2"
                (NewRat 100 1) (NewRat 2 1) (NewVWAPCalculator 3)
                eq_refl eq_refl) as [_ Haccept].
    exact (Haccept Hpos Hnew).
Defined.

Lemma Calculate_total_witness :
  let v := {| mu := false; buffer := zeroRingBuffer 200;
              totalPV := NewRat 70 1; totalVolume := NewRat 4 1 |} in
  mu v = false /\
  totalVolume v <> 0%Qc /\
  Calculate decimalFloatString (NewVWAPCalculator 200)
  = Ret ("0"%string, NewVWAPCalculator 200) /\
  Calculate decimalFloatString v = Ret ("17.5000"%string, v).
Proof.
  intros v.
  assert (totalVolume v <> 0%Qc) as Hvol.
  { intros H. apply (f_equal this) in H. vm_compute in H. discriminate H. }
  split; [reflexivity |]. split; [exact Hvol |].
  destruct (Calculate_total 200 decimalFloatString v eq_refl) as (Hnew & _ & Hquo).
  split; [exact Hnew | exact (Hquo Hvol)].
Defined.

Lemma Calculate_frame_witness :
  mu (NewVWAPCalculator 200) = false /\
  exists value,
    Calculate decimalFloatString (NewVWAPCalculator 200)
    = Ret (value, NewVWAPCalculator 200) /\
    run 200 decimalSetString decimalFloatString
      (replicate 3 CallCalculate) (NewVWAPCalculator 200)
    = Ret (replicate 3 (Calculated value), NewVWAPCalculator 200).
Proof.
  split; [reflexivity |].
  destruct (Calculate_frame 200 decimalSetString decimalFloatString
              (NewVWAPCalculator 200) eq_refl) as (value & Hcalc & Hruns).
  exists value. split; [exact Hcalc | exact (Hruns 3%nat)].
Defined.

Lemma main_gives_up_witness :
  let errs := replicate 6 "connection refused"%string in
  let rest := [DialErr "never dialled"] in
  retryCount (mainInit 200) = 0 /\
  length errs = S (Z.to_nat maxRetries) /\
  exists s',
    mainLoop 200 decimalSetString decimalFloatString
      (map DialErr errs ++ rest) (mainInit 200)
    = Ret (Returned s', rest) /\
    attempts (output s') = 6%nat /\
    calculators s' = calculators (mainInit 200).
Proof.
  intros errs rest.
  split; [reflexivity |]. split; [reflexivity |].
  destruct (main_gives_up 200 decimalSetString decimalFloatString
              (mainInit 200) errs rest eq_refl eq_refl)
    as (_ & s' & Hrun & Ha & _ & Hc & _).
  exists s'. split; [exact Hrun |]. split; [exact Ha | exact Hc].
Defined.

(** With six failures in a row [main] is still in its loop after the fifth
    and makes the sixth dial; it returns at that one. *)
Lemma sixth_dial_is_made :
  let script := replicate 6 (DialErr "connection refused") in
  let result := main 200 decimalSetString decimalFloatString script in
  ~ gives_up_after 5 result script /\
  (exists s, main 200 decimalSetString decimalFloatString (take 5 script)
             = Ret (Looping s, [])) /\
  gives_up_after 6 result script.
Proof.
  intros script result. split; [| split].
  - intros (s & Hrun & _). vm_compute in Hrun. discriminate Hrun.
  - eexists. vm_compute. reflexivity.
  - eexists. split; vm_compute; reflexivity.
Qed.

Lemma retries_count_consecutive_failures_witness :
  let script := [DialErr "refused"; DialErr "refused"; DialOk two_trades;
                 DialErr "refused"; DialErr "refused"; DialErr "refused";
                 DialErr "refused"; DialErr "refused"] in
  (0 < 3 /\ 3 <= 2 ^ 61) /\
  (longestFailRun 0 script <= Z.to_nat maxRetries)%nat /\
  exists s, main 3 decimalSetString decimalFloatString script = Ret (Looping s, []).
Proof.
  intros script.
  assert (longestFailRun 0 script <= Z.to_nat maxRetries)%nat as Hruns
    by (vm_compute; lia).
  split; [exact small_window |]. split; [exact Hruns |].
  exact (proj1 (retries_count_consecutive_failures 3
                  (proj1 small_window) (proj2 small_window)
                  decimalSetString decimalFloatString script Hruns)).
Defined.

Lemma processMessage_frame_witness :
  let calculators := calculators (mainInit 3) in
  (0 < 3 /\ 3 <= 2 ^ 61) /\
  calculators !! "BTC-USD"%string = Some (NewVWAPCalculator 3) /\
  consistent 3 (NewVWAPCalculator 3) /\
  valid decimalSetString ("10", "1")%string (NewRat 10 1, NewRat 1 1) /\
  exists calculator' vwap,
    contents (buffer calculator') = [(NewRat 10 1, NewRat 1 1)] /\
    processMessage 3 decimalSetString decimalFloatString
      (frame "match" "BTC-USD" (JString "10") (JString "1")) calculators
    = Ret (<["BTC-USD"%string := calculator']> calculators,
           [Infof "Received trade: %s %s @ %s" ["BTC-USD"; "1"; "10"]%string;
            Printf "%s VWAP: %s\n" ["BTC-USD"%string; vwap]]).
Proof.
  intros calculators.
  assert (consistent 3 (NewVWAPCalculator 3)) as Hnew.
  { unfold consistent, rb_shape. simpl. repeat split; try lia; reflexivity. }
  assert (valid decimalSetString ("10", "1")%string (NewRat 10 1, NewRat 1 1)) as Hvalid.
  { repeat split. }
  split; [exact small_window |]. split; [reflexivity |].
  split; [exact Hnew |]. split; [exact Hvalid |].
  destruct (processMessage_frame 3 (proj1 small_window) (proj2 small_window)
              decimalSetString decimalFloatString "match" "BTC-USD" "10" "1" calculators)
    as (_ & Haccept & _).
  destruct (Haccept (NewRat 10 1) (NewRat 1 1) (NewVWAPCalculator 3)
              eq_refl eq_refl Hnew Hvalid)
    as (calculator' & vwap & _ & Hc & _ & Hrun).
  exists calculator', vwap. split; [exact Hc | exact Hrun].
Defined.

(** A frame whose price and size are JSON numbers does not decode: it is
    dropped with a decode error and the calculators stay as they were. *)
Lemma number_frame_is_dropped :
  let message := frame "match" "BTC-USD" (JNumber "100") (JNumber "1") in
  let calculators := calculators (mainInit 200) in
  ~ decodes message /\
  processMessage 200 decimalSetString decimalFloatString message calculators
  = Ret (calculators,
         [Errorf "JSON decode error: %v"
            ["json: cannot unmarshal number into Go struct field Trade.price of type string"%string]]).
Proof.
  intros message calculators. split.
  - intros (trade & Hdecode). vm_compute in Hdecode. discriminate Hdecode.
  - reflexivity.
Qed.

(** ** The calculator as a sliding window *)

Lemma parseTrade_Some (SetString : string -> option Qc) (priceStr sizeStr : string)
  (t : Qc * Qc) :
  parseTrade SetString priceStr sizeStr = Some t <-> valid SetString (priceStr, sizeStr) t.
Proof.
  unfold parseTrade, valid. simpl. destruct t as [price size]. simpl.
  destruct (SetString priceStr) as [p |]; [| split; [done | by intros (? & _)]].
  destruct (SetString sizeStr) as [s0 |]; [| split; [done | by intros (_ & ? & _)]].
  destruct (decide ((0 < p)%Qc /\ (0 < s0)%Qc)) as [[Hp Hs] | Hn].
  - split; [by intros [= -> ->] | by intros ([= ->] & [= ->] & _)].
  - split; [done |]. intros ([= ->] & [= ->] & Hp & Hs). by destruct Hn.
Qed.

Lemma parseTrade_None (SetString : string -> option Qc) (priceStr sizeStr : string) :
  parseTrade SetString priceStr sizeStr = None ->
  forall price size, ~ valid SetString (priceStr, sizeStr) (price, size).
Proof.
  intros Hnone price size Hvalid. apply parseTrade_Some in Hvalid. congruence.
Qed.

Lemma positive_slide (n : nat) (t : Qc * Qc) (window : list (Qc * Qc)) :
  positive t -> Forall positive window -> Forall positive (slide n t window).
Proof.
  intros Ht Hw. unfold slide.
  destruct (length window =? n)%nat; apply Forall_app; split; try done.
  - destruct Hw; [done | by simpl].
  - by constructor.
  - by constructor.
Qed.

Lemma foldl_slide_lastn {A} (n : nat) (l : list A) :
  (0 < n)%nat -> foldl (fun window t => slide n t window) [] l = lastn n l.
Proof.
  intros Hn. induction l as [| x l IH] using rev_ind; [done |].
  by rewrite foldl_snoc, IH, slide_lastn.
Qed.

Lemma windowRun_window (n : nat) (SetString : string -> option Qc)
  (FloatString : Qc -> Z -> string) (calls : list Call) (window : list (Qc * Qc)) :
  (windowRun n SetString FloatString calls window).2
  = foldl (fun window t => slide n t window) window (acceptedTrades SetString calls).
Proof.
  revert window. induction calls as [| [priceStr sizeStr |] calls IH]; intros window.
  - done.
  - simpl. destruct (parseTrade SetString priceStr sizeStr) as [trade |]; simpl.
    + rewrite <- IH. by destruct (windowRun _ _ _ _ _).
    + rewrite <- IH. by destruct (windowRun _ _ _ _ _).
  - simpl. rewrite <- IH. by destruct (windowRun _ _ _ _ _).
Qed.

Lemma sumPV_lower (lo : Qc) (l : list (Qc * Qc)) :
  Forall (fun t => (lo <= t.1)%Qc /\ (0 < t.2)%Qc) l ->
  (lo * sumVolume l <= sumPV l)%Qc.
Proof.
  induction 1 as [| [p s0] l [Hp Hs] _ IH]; simpl in *.
  - rewrite Qcmult_0_r. apply Qcle_refl.
  - rewrite Qcmult_plus_distr_r. apply Qcplus_le_compat; [| done].
    apply Qcmult_le_mono_nonneg_r; [by apply Qclt_le_weak | done].
Qed.

Lemma sumPV_upper (hi : Qc) (l : list (Qc * Qc)) :
  Forall (fun t => (t.1 <= hi)%Qc /\ (0 < t.2)%Qc) l ->
  (sumPV l <= hi * sumVolume l)%Qc.
Proof.
  induction 1 as [| [p s0] l [Hp Hs] _ IH]; simpl in *.
  - rewrite Qcmult_0_r. apply Qcle_refl.
  - rewrite Qcmult_plus_distr_r. apply Qcplus_le_compat; [| done].
    apply Qcmult_le_mono_nonneg_r; [by apply Qclt_le_weak | done].
Qed.

Lemma Qcdiv_between (lo hi x y : Qc) :
  (0 < y)%Qc -> (lo * y <= x)%Qc -> (x <= hi * y)%Qc ->
  (lo <= x / y)%Qc /\ (x / y <= hi)%Qc.
Proof.
  intros Hy Hlo Hhi.
  assert (y <> 0%Qc) as Hne by (apply not_eq_sym, Qclt_not_eq; done).
  pose proof (Qclt_le_weak _ _ (Qcinv_pos y Hy)) as Hinv.
  split.
  - rewrite <- (Qcdiv_mult_l lo y Hne). unfold Qcdiv.
    by apply Qcmult_le_mono_nonneg_r.
  - rewrite <- (Qcdiv_mult_l hi y Hne). unfold Qcdiv.
    by apply Qcmult_le_mono_nonneg_r.
Qed.

Lemma vwapText_sums (FloatString : Qc -> Z -> string) (window : list (Qc * Qc)) :
  Forall positive window ->
  (if decide (sumVolume window = 0%Qc) then "0"%string
   else FloatString (sumPV window / sumVolume window)%Qc 4)
  = vwapText FloatString window.
Proof.
  intros Hpos. destruct window as [| t window]; [done |].
  assert (0 < sumVolume (t :: window))%Qc as Hgt.
  { apply sumVolume_pos; [| done].
    eapply Forall_impl; [exact Hpos |]. by intros ? [_ ?]. }
  destruct (decide (sumVolume (t :: window) = 0%Qc)) as [Hzero | _]; [| done].
  apply Qclt_not_eq in Hgt. congruence.
Qed.

Lemma sumPV_pos (l : list (Qc * Qc)) :
  Forall positive l -> l <> [] -> (0 < sumPV l)%Qc.
Proof.
  intros Hl Hne. destruct Hl as [| t l [Hp Hs] Hl]; [done |]. simpl.
  apply Qcplus_pos_nonneg; [by apply Qcmult_pos_pos |].
  clear -Hl. induction Hl as [| t l [Hp Hs] _ IH]; simpl; [done |].
  apply Qcplus_nonneg_nonneg; [| done].
  by apply Qclt_le_weak, Qcmult_pos_pos.
Qed.

Section WindowFacts.

Variable windowSize : Z.
Hypothesis windowSize_pos : 0 < windowSize.
Hypothesis windowSize_fits : windowSize <= 2 ^ 61.
Variable SetString : string -> option Qc.
Variable FloatString : Qc -> Z -> string.

Local Abbreviation run' := (run windowSize SetString FloatString).
Local Abbreviation windowRun' :=
  (windowRun (Z.to_nat windowSize) SetString FloatString).

(** The calculator follows the list model from any state at rest whose
    retained trades are positive. *)
Lemma run_windowRun (calls : list Call) (v : VWAPCalculator) :
  consistent windowSize v ->
  Forall positive (contents (buffer v)) ->
  exists v',
    run' calls v = Ret ((windowRun' calls (contents (buffer v))).1, v') /\
    consistent windowSize v' /\
    Forall positive (contents (buffer v')) /\
    contents (buffer v') = (windowRun' calls (contents (buffer v))).2.
Proof.
  revert v. induction calls as [| [priceStr sizeStr |] calls IH]; intros v Hv Hpos.
  - by exists v.
  - simpl. destruct (parseTrade SetString priceStr sizeStr) as [[price size] |] eqn:Hparse.
    + apply parseTrade_Some in Hparse.
      destruct (Update_accepts windowSize windowSize_pos windowSize_fits SetString
                  _ _ _ _ v Hv Hparse) as (v1 & -> & Hv1 & Hc1).
      simpl. destruct (IH v1 Hv1) as (v' & -> & Hv' & Hpos' & Hc').
      { rewrite Hc1. apply positive_slide; [apply Hparse | done]. }
      simpl. rewrite Hc1 in *.
      destruct (windowRun' calls _) as [replies window]. by exists v'.
    + rewrite (Update_rejects windowSize SetString) by by apply parseTrade_None.
      simpl. destruct (IH v Hv Hpos) as (v' & -> & Hv' & Hpos' & Hc').
      simpl. destruct (windowRun' calls _) as [replies window]. by exists v'.
  - simpl. rewrite Calculate_value by apply Hv. simpl.
    destruct (IH v Hv Hpos) as (v' & -> & Hv' & Hpos' & Hc').
    simpl. destruct Hv as (_ & _ & HPV & HVol).
    rewrite HPV, HVol, (vwapText_sums FloatString) by done.
    destruct (windowRun' calls _) as [replies window]. by exists v'.
Qed.

Lemma run_fresh (calls : list Call) :
  exists v,
    run' calls (NewVWAPCalculator windowSize) = Ret ((windowRun' calls []).1, v) /\
    consistent windowSize v /\
    Forall positive (contents (buffer v)) /\
    contents (buffer v) = lastn (Z.to_nat windowSize) (acceptedTrades SetString calls).
Proof.
  destruct (run_windowRun calls (NewVWAPCalculator windowSize))
    as (v & Hrun & Hv & Hpos & Hc).
  { by apply NewVWAPCalculator_consistent. }
  { by constructor. }
  exists v. split; [done |]. split; [done |]. split; [done |].
  change (contents (buffer (NewVWAPCalculator windowSize))) with (@nil (Qc * Qc)) in Hc.
  rewrite Hc, windowRun_window. apply foldl_slide_lastn. lia.
Qed.

(** X1. Whatever calls are made on a fresh calculator, accepted updates,
    rejected ones and queries in any order, it answers as the list model
    does: an update is refused exactly when a string is no number or a
    number is not positive, a query gives the text 0 before the first
    accepted trade and the quotient of the sums over the window after it;
    and the buffer retains the last [windowSize] accepted trades, oldest
    first. *)
Theorem calculator_is_sliding_window (calls : list Call) :
  exists v,
    run' calls (NewVWAPCalculator windowSize) = Ret ((windowRun' calls []).1, v) /\
    contents (buffer v) = (windowRun' calls []).2 /\
    contents (buffer v) = lastn (Z.to_nat windowSize) (acceptedTrades SetString calls) /\
    count (buffer v)
    = Z.min (Z.of_nat (length (acceptedTrades SetString calls))) windowSize.
Proof.
  destruct (run_fresh calls) as (v & Hrun & Hv & _ & Hc).
  exists v. split; [done |].
  split; [rewrite Hc, windowRun_window; symmetry; apply foldl_slide_lastn; lia |].
  split; [done |].
  rewrite (count_contents windowSize (buffer v)) by apply Hv.
  rewrite Hc, length_lastn. lia.
Qed.

(** X2. After any calls on a fresh calculator that got at least one trade
    accepted, the total volume is positive and the average price
    [totalPV / totalVolume], which [Calculate] writes out, is positive and
    lies between any two bounds that enclose the prices of the retained
    trades. *)
Theorem vwap_within_prices (calls : list Call) (lo hi : Qc) :
  exists replies v,
    run' calls (NewVWAPCalculator windowSize) = Ret (replies, v) /\
    (acceptedTrades SetString calls <> [] ->
     (0 < totalVolume v)%Qc /\
     (0 < totalPV v / totalVolume v)%Qc /\
     Calculate FloatString v
     = Ret (FloatString (totalPV v / totalVolume v)%Qc 4, v) /\
     (Forall (fun t => (lo <= t.1)%Qc /\ (t.1 <= hi)%Qc) (contents (buffer v)) ->
      (lo <= totalPV v / totalVolume v)%Qc /\ (totalPV v / totalVolume v <= hi)%Qc)).
Proof.
  destruct (run_fresh calls) as (v & Hrun & Hv & Hpos & Hc).
  eexists _, v. split; [done |]. intros Hne.
  assert (contents (buffer v) <> []) as Hcne.
  { intros Hnil. apply (f_equal length) in Hnil.
    rewrite Hc, length_lastn in Hnil.
    destruct (acceptedTrades SetString calls); cbn [length] in *; [done | lia]. }
  destruct Hv as (Hmu & _ & HPV & HVol).
  assert (0 < totalVolume v)%Qc as HVpos.
  { rewrite HVol. apply sumVolume_pos; [| done].
    eapply Forall_impl; [exact Hpos |]. by intros ? [_ ?]. }
  assert (0 < totalPV v)%Qc as HPpos by (rewrite HPV; by apply sumPV_pos).
  split; [done |].
  split; [by apply Qcmult_pos_pos; [| apply Qcinv_pos] |].
  split.
  - rewrite Calculate_value by done.
    destruct (decide (totalVolume v = 0%Qc)) as [Hzero | _]; [| done].
    apply Qclt_not_eq in HVpos. congruence.
  - intros Hbounds. apply Qcdiv_between; [done | |]; rewrite HPV, HVol.
    + apply sumPV_lower. rewrite Forall_forall in *.
      intros t Ht. split; [apply Hbounds, Ht | apply Hpos, Ht].
    + apply sumPV_upper. rewrite Forall_forall in *.
      intros t Ht. split; [apply Hbounds, Ht | apply Hpos, Ht].
Qed.

End WindowFacts.

(** ** The dispatcher *)

Section DispatchFacts.

Variable windowSize : Z.
Hypothesis windowSize_pos : 0 < windowSize.
Hypothesis windowSize_fits : windowSize <= 2 ^ 61.
Variable SetString : string -> option Qc.
Variable FloatString : Qc -> Z -> string.

Local Abbreviation run' := (run windowSize SetString FloatString).
Local Abbreviation processMessage' := (processMessage windowSize SetString FloatString).
Local Abbreviation receive' := (receive windowSize SetString FloatString).
Local Abbreviation handleConnection' :=
  (handleConnection windowSize SetString FloatString).
Local Abbreviation registry_ok' := (registry_ok windowSize).

(** One frame, seen from every product: the calculator of a product goes
    through the updates the frame has for it, and no key comes or goes. *)
Lemma processMessage_updatesOf (message : Message)
  (calculators : gmap string VWAPCalculator) :
  registry_ok' calculators ->
  exists calculators' out,
    processMessage' message calculators = Ret (calculators', out) /\
    registry_ok' calculators' /\
    Forall (fun e => isConnecting e = false) out /\
    (forall k, calculators !! k = None -> calculators' !! k = None) /\
    (forall k v, calculators !! k = Some v ->
       exists replies v',
         run' (updatesOf k message) v = Ret (replies, v') /\
         calculators' !! k = Some v').
Proof.
  intros Hok. unfold processMessage, updatesOf.
  destruct (Unmarshal message zeroTrade) as [trade [err |]].
  { exists calculators. eexists. split; [done |]. split; [done |].
    split; [by repeat constructor |]. split; [done |].
    intros k v Hk. by exists [], v. }
  destruct (String.eqb_spec (Type_ trade) "match") as [Htype | Htype]; simpl.
  2:{ exists calculators. eexists. split; [done |]. split; [done |].
      split; [by repeat constructor |]. split; [done |].
      intros k v Hk. by exists [], v. }
  destruct (calculators !! ProductID trade) as [calculator |] eqn:Hlookup.
  2:{ exists calculators. eexists. split; [done |]. split; [done |].
      split; [by repeat constructor |]. split; [done |].
      intros k v Hk.
      destruct (String.eqb_spec (ProductID trade) k) as [Heq | _];
        [rewrite Heq in Hlookup; congruence |].
      by exists [], v. }
  pose proof (Hok _ _ Hlookup) as Hv. simpl in Hv.
  assert (forall (err : option error) (v1 : VWAPCalculator),
            Update windowSize SetString (Price trade) (Size trade) calculator
            = Ret (err, v1) ->
            (forall k, calculators !! k = None ->
               <[ProductID trade := v1]> calculators !! k = None) /\
            (forall k v, calculators !! k = Some v ->
               exists replies v',
                 run' (if String.eqb (ProductID trade) k
                       then [CallUpdate (Price trade) (Size trade)] else []) v
                 = Ret (replies, v') /\
                 <[ProductID trade := v1]> calculators !! k = Some v')) as Hkeys.
  { intros err v1 HUpdate. split.
    - intros k Hk. rewrite lookup_insert_ne; [done |]. congruence.
    - intros k v Hk.
      destruct (String.eqb_spec (ProductID trade) k) as [Heq | Hne]; simpl.
      + rewrite <- Heq in *. rewrite Hlookup in Hk. simplify_eq.
        rewrite HUpdate. simpl.
        eexists _, _. split; [done |]. by rewrite lookup_insert_eq.
      + exists [], v. split; [done |]. by rewrite lookup_insert_ne. }
  destruct (valid_dec SetString (Price trade) (Size trade))
    as [(price & size & Hvalid) | Hinvalid].
  - destruct (Update_accepts windowSize windowSize_pos windowSize_fits SetString
                _ _ _ _ calculator Hv Hvalid) as (v1 & HUpdate & Hv1 & _).
    rewrite HUpdate. simpl. rewrite Calculate_value by apply Hv1. simpl.
    rewrite insert_insert_eq.
    eexists _, _. split; [done |].
    split; [by apply map_Forall_insert_2 |].
    split; [by repeat constructor |]. by apply (Hkeys None).
  - pose proof (Update_rejects windowSize SetString _ _ calculator Hinvalid) as HUpdate.
    rewrite HUpdate. simpl.
    eexists _, _. split; [done |].
    split; [by apply map_Forall_insert_2 |].
    split; [by repeat constructor |]. by apply (Hkeys (Some invalidTrade)).
Qed.

Lemma receive_updatesOf (frames : list Message) (readErr : error)
  (calculators : gmap string VWAPCalculator) :
  registry_ok' calculators ->
  exists calculators' out,
    receive' frames readErr calculators
    = Ret (("read error: " ++ readErr)%string, calculators', out) /\
    registry_ok' calculators' /\
    Forall (fun e => isConnecting e = false) out /\
    (forall k, calculators !! k = None -> calculators' !! k = None) /\
    (forall k v, calculators !! k = Some v ->
       exists replies v',
         run' (flat_map (updatesOf k) frames) v = Ret (replies, v') /\
         calculators' !! k = Some v').
Proof.
  revert calculators. induction frames as [| message frames IH]; intros calculators Hok.
  - exists calculators, []. split; [done |]. split; [done |]. split; [done |].
    split; [done |]. intros k v Hk. by exists [], v.
  - destruct (processMessage_updatesOf message calculators Hok)
      as (c1 & out1 & Hrun1 & Hok1 & Hq1 & Hnone1 & Hsome1).
    destruct (IH c1 Hok1) as (c2 & out2 & Hrun2 & Hok2 & Hq2 & Hnone2 & Hsome2).
    exists c2, (out1 ++ out2). simpl. rewrite Hrun1. simpl. rewrite Hrun2. simpl.
    split; [done |]. split; [done |].
    split; [by apply Forall_app |].
    split; [intros k Hk; by apply Hnone2, Hnone1 |].
    intros k v Hk.
    destruct (Hsome1 k v Hk) as (replies1 & v1 & Hcalls1 & Hk1).
    destruct (Hsome2 k v1 Hk1) as (replies2 & v2 & Hcalls2 & Hk2).
    exists (replies1 ++ replies2), v2. split; [| done].
    rewrite run_app, Hcalls1. simpl. by rewrite Hcalls2.
Qed.

Lemma handleConnection_updatesOf (conn : Conn)
  (calculators : gmap string VWAPCalculator) :
  registry_ok' calculators ->
  exists calculators' out,
    handleConnection' conn calculators
    = Ret (match writeErr conn with
           | Some err => ("subscribe failed: " ++ err)%string
           | None => ("read error: " ++ readErr conn)%string
           end, calculators', out) /\
    registry_ok' calculators' /\
    Forall (fun e => isConnecting e = false) out /\
    (forall k, calculators !! k = None -> calculators' !! k = None) /\
    (forall k v, calculators !! k = Some v ->
       exists replies v',
         run' (flat_map (updatesOf k) (handledFrames conn)) v = Ret (replies, v') /\
         calculators' !! k = Some v').
Proof.
  intros Hok. unfold handleConnection, subscribe, handledFrames.
  destruct (writeErr conn) as [err |].
  - exists calculators, []. split; [done |]. split; [done |]. split; [done |].
    split; [done |]. intros k v Hk. by exists [], v.
  - destruct (receive_updatesOf (frames conn) (readErr conn) calculators Hok)
      as (c' & out & -> & Hok' & Hq & Hnone & Hsome).
    simpl. eexists _, _. split; [done |]. split; [done |].
    split; [| done]. by repeat constructor.
Qed.

(** X3. A frame that does not decode, is no match, names a product without
    a calculator, or carries a price or size that is no positive number, is
    dropped: [processMessage] returns with every calculator as it was and
    prints no price. *)
Theorem processMessage_discards (message : Message)
  (calculators : gmap string VWAPCalculator) :
  let trade := (Unmarshal message zeroTrade).1 in
  (Unmarshal message zeroTrade).2 <> None \/
  Type_ trade <> "match"%string \/
  calculators !! ProductID trade = None \/
  parseTrade SetString (Price trade) (Size trade) = None ->
  exists out,
    processMessage' message calculators = Ret (calculators, out) /\
    Forall (fun e => isPrintf e = false) out.
Proof.
  unfold processMessage.
  destruct (Unmarshal message zeroTrade) as [trade [err |]]; simpl.
  { intros _. eexists. split; [done |]. by repeat constructor. }
  destruct (String.eqb_spec (Type_ trade) "match") as [Htype | Htype]; simpl.
  2:{ intros _. eexists. split; [done |]. by repeat constructor. }
  destruct (calculators !! ProductID trade) as [calculator |] eqn:Hlookup.
  2:{ intros _. eexists. split; [done |]. by repeat constructor. }
  intros [H | [H | [H | Hparse]]]; try done.
  rewrite (Update_rejects windowSize SetString) by by apply parseTrade_None.
  simpl. rewrite insert_id by done.
  eexists. split; [done |]. by repeat constructor.
Qed.

(** X4. On one connection the calculator of each product goes through the
    updates of the frames that are matches for that product, in the order
    of arrival, and through nothing else: frames for other products do not
    touch it, no key is added or removed, and when the subscription cannot
    be written no frame is handled at all. The call ends with the
    subscription error or with the read error. *)
Theorem handleConnection_per_product (conn : Conn)
  (calculators : gmap string VWAPCalculator) :
  registry_ok' calculators ->
  exists calculators' out,
    handleConnection' conn calculators
    = Ret (match writeErr conn with
           | Some err => ("subscribe failed: " ++ err)%string
           | None => ("read error: " ++ readErr conn)%string
           end, calculators', out) /\
    dom calculators' = dom calculators /\
    (writeErr conn <> None -> calculators' = calculators) /\
    (forall k v, calculators !! k = Some v ->
       exists replies v',
         run' (flat_map (updatesOf k) (handledFrames conn)) v = Ret (replies, v') /\
         calculators' !! k = Some v').
Proof.
  intros Hok.
  destruct (handleConnection_updatesOf conn calculators Hok)
    as (c' & out & Hrun & _ & _ & Hnone & Hsome).
  exists c', out. split; [done |]. split; [| split; [| done]].
  - apply set_eq. intros k. rewrite !elem_of_dom.
    destruct (calculators !! k) as [v |] eqn:Hk.
    + destruct (Hsome k v Hk) as (_ & v' & _ & ->). split; eauto.
    + rewrite (Hnone k Hk). done.
  - intros Hwrite. unfold handleConnection, subscribe in Hrun.
    destruct (writeErr conn); [by simplify_eq | done].
Qed.

End DispatchFacts.

(** X5. Members of a frame whose keys name no field of [Trade] are skipped
    wherever they stand: the frame decodes, and is processed, as the frame
    without them. *)
Theorem Unmarshal_skips_unknown_members (members : list (string * JSON)) :
  let known := filter (fun m => is_Some (fieldOf m.1)) members in
  (forall trade,
     Unmarshal (Valid (JObject members)) trade = Unmarshal (Valid (JObject known)) trade) /\
  (forall windowSize SetString FloatString calculators,
     processMessage windowSize SetString FloatString (Valid (JObject members)) calculators
     = processMessage windowSize SetString FloatString (Valid (JObject known)) calculators).
Proof.
  assert (forall acc,
            fold_left decodeMember members acc
            = fold_left decodeMember
                (filter (fun m => is_Some (fieldOf m.1)) members) acc) as Hfold.
  { induction members as [| m members IH]; intros acc; [done |].
    simpl. rewrite filter_cons.
    destruct (decide (is_Some (fieldOf m.1))) as [Hs | Hn].
    - simpl. apply IH.
    - rewrite <- IH. f_equal. unfold decodeMember. destruct acc as [t err].
      destruct (fieldOf m.1); [| done]. destruct Hn. by eexists. }
  split.
  - intros trade. simpl. apply Hfold.
  - intros windowSize SetString FloatString calculators.
    unfold processMessage. simpl. by rewrite Hfold.
Qed.

(** ** The loop of [main] on any script *)

Lemma attempts_quiet (out : list Event) :
  Forall (fun e => isConnecting e = false) out -> attempts out = 0%nat.
Proof.
  unfold attempts. induction 1 as [| e out He _ IH]; [done |].
  rewrite filter_cons. destruct (decide (isConnecting e = true)); [congruence | done].
Qed.

Lemma delayed_dial (out tail : list Event) :
  delayed out ->
  out = [] \/ last out = Some (Sleep retryDelay) ->
  Forall (fun e => isConnecting e = false) tail ->
  delayed (out ++ Infof "Connecting to %s" [websocketURL] :: tail).
Proof.
  intros Hout Hlast Htail i e Hi He.
  destruct (decide (S i < length out)%nat) as [Hlt | Hge].
  - rewrite lookup_app_l in Hi by lia. rewrite lookup_app_l by lia.
    by apply (Hout i e).
  - destruct (decide (S i = length out)) as [Heq | Hne].
    + rewrite lookup_app_l by lia.
      destruct Hlast as [-> | Hlast]; [simpl in Heq; lia |].
      rewrite last_lookup in Hlast. rewrite <- Hlast. f_equal. lia.
    + rewrite lookup_app_r in Hi by lia.
      destruct (S i - length out)%nat as [| j] eqn:Hj; [lia |].
      simpl in Hi. rewrite Forall_lookup in Htail.
      specialize (Htail j e Hi). simpl in Htail. congruence.
Qed.

Lemma framesOf_cons (dial : Dial) (script : list Dial) :
  framesOf (dial :: script) = framesOf [dial] ++ framesOf script.
Proof. unfold framesOf. simpl. by rewrite app_nil_r. Qed.

Lemma mainInit_lookup (windowSize : Z) (k : string) (v : VWAPCalculator) :
  calculators (mainInit windowSize) !! k = Some v -> v = NewVWAPCalculator windowSize.
Proof.
  unfold mainInit. simpl. rewrite !lookup_insert, lookup_empty.
  repeat case_decide; by intros [= <-].
Qed.

Section MainFacts.

Variable windowSize : Z.
Hypothesis windowSize_pos : 0 < windowSize.
Hypothesis windowSize_fits : windowSize <= 2 ^ 61.
Variable SetString : string -> option Qc.
Variable FloatString : Qc -> Z -> string.

Local Abbreviation run' := (run windowSize SetString FloatString).
Local Abbreviation mainTurn' := (mainTurn windowSize SetString FloatString).
Local Abbreviation mainLoop' := (mainLoop windowSize SetString FloatString).
Local Abbreviation main' := (main windowSize SetString FloatString).
Local Abbreviation registry_ok' := (registry_ok windowSize).

(** What one turn of the loop does to the state, whatever the dial gives. *)
Lemma mainTurn_step (s : MainState) (dial : Dial) :
  registry_ok' (calculators s) ->
  0 <= retryCount s <= maxRetries ->
  exists st tail,
    mainTurn' s dial = Ret st /\
    output (stateOf st)
    = output s ++ Infof "Connecting to %s" [websocketURL] :: tail /\
    Forall (fun e => isConnecting e = false) tail /\
    registry_ok' (calculators (stateOf st)) /\
    (forall k, calculators s !! k = None -> calculators (stateOf st) !! k = None) /\
    (forall k v, calculators s !! k = Some v ->
       exists replies v',
         run' (flat_map (updatesOf k) (framesOf [dial])) v = Ret (replies, v') /\
         calculators (stateOf st) !! k = Some v') /\
    match st with
    | Looping s' =>
        last tail = Some (Sleep retryDelay) /\
        0 <= retryCount s' <= maxRetries /\
        retryCount s' = match dial with DialOk _ => 0 | DialErr _ => retryCount s + 1 end
    | Returned s' =>
        retryCount s = maxRetries /\ retryCount s' = maxRetries + 1 /\
        exists err, dial = DialErr err
    end.
Proof.
  intros Hok Hcount. destruct dial as [err | conn].
  - rewrite mainTurn_DialErr by done.
    destruct (Z.gtb_spec (retryCount s + 1) maxRetries) as [Hgt | Hle].
    + eexists (Returned _), _. split; [done |]. simpl.
      split; [done |]. split; [by repeat constructor |]. split; [done |].
      split; [done |]. split; [intros k v Hk; by exists [], v |].
      split; [lia |]. split; [lia |]. by exists err.
    + eexists (Looping _), _. split; [done |]. simpl.
      split; [done |]. split; [by repeat constructor |]. split; [done |].
      split; [done |]. split; [intros k v Hk; by exists [], v |].
      split; [done |]. split; [lia | done].
  - unfold mainTurn. simpl.
    destruct (handleConnection_updatesOf windowSize windowSize_pos windowSize_fits
                SetString FloatString conn (calculators s) Hok)
      as (c' & out & -> & Hok' & Hq & Hnone & Hsome).
    simpl. eexists (Looping _), _. split; [done |]. simpl.
    split; [done |].
    split; [apply Forall_app; split; [done | by repeat constructor] |].
    split; [done |]. split; [done |].
    split; [intros k v Hk; rewrite app_nil_r; by apply Hsome |].
    split; [by rewrite last_app |]. unfold maxRetries. split; [lia | done].
Qed.

(** The loop on a whole script, from any state it can be in. *)
Lemma mainLoop_steps (script : list Dial) (s : MainState) :
  registry_ok' (calculators s) ->
  0 <= retryCount s <= maxRetries ->
  delayed (output s) ->
  output s = [] \/ last (output s) = Some (Sleep retryDelay) ->
  exists st used rest,
    script = used ++ rest /\
    mainLoop' script s = Ret (st, rest) /\
    registry_ok' (calculators (stateOf st)) /\
    (forall k, calculators s !! k = None -> calculators (stateOf st) !! k = None) /\
    (forall k v, calculators s !! k = Some v ->
       exists replies v',
         run' (flat_map (updatesOf k) (framesOf used)) v = Ret (replies, v') /\
         calculators (stateOf st) !! k = Some v') /\
    attempts (output (stateOf st)) = (attempts (output s) + length used)%nat /\
    delayed (output (stateOf st)) /\
    0 <= retryCount (stateOf st) <= maxRetries + 1 /\
    (forall s', st = Looping s' -> rest = [] /\ retryCount s' <= maxRetries).
Proof.
  revert s. induction script as [| dial script IH]; intros s Hok Hcount Hdel Hlast.
  - exists (Looping s), [], []. simpl. split; [done |]. split; [done |].
    split; [done |]. split; [done |].
    split; [intros k v Hk; by exists [], v |].
    split; [lia |]. split; [done |]. split; [lia |].
    intros s' [= <-]. split; [done | lia].
  - destruct (mainTurn_step s dial Hok Hcount)
      as (st & tail & Hturn & Hout & Hq & Hok1 & Hnone1 & Hsome1 & Hst).
    assert (attempts (output (stateOf st)) = (attempts (output s) + 1)%nat) as Hatt.
    { rewrite Hout, attempts_app.
      change (Infof "Connecting to %s" [websocketURL] :: tail)
        with ([Infof "Connecting to %s" [websocketURL]] ++ tail).
      rewrite attempts_app, (attempts_quiet tail Hq). unfold attempts. simpl. lia. }
    assert (delayed (output (stateOf st))) as Hdel1.
    { rewrite Hout. by apply delayed_dial. }
    simpl. rewrite Hturn. simpl. destruct st as [s1 | s1]; cbn [stateOf] in *.
    + destruct Hst as (Hlast1 & Hcount1 & _).
      destruct (IH s1 Hok1 Hcount1 Hdel1) as
        (st & used & rest & -> & Hrun & Hok2 & Hnone2 & Hsome2 & Hatt2 & Hdel2 & Hc2 & Hloop).
      { right. rewrite Hout. rewrite last_app. simpl.
        change (Infof "Connecting to %s" [websocketURL] :: tail)
          with ([Infof "Connecting to %s" [websocketURL]] ++ tail).
        by rewrite last_app, Hlast1. }
      exists st, (dial :: used), rest. split; [done |]. split; [done |].
      split; [done |]. split; [intros k Hk; by apply Hnone2, Hnone1 |].
      split.
      { intros k v Hk.
        destruct (Hsome1 k v Hk) as (replies1 & v1 & Hcalls1 & Hk1).
        destruct (Hsome2 k v1 Hk1) as (replies2 & v2 & Hcalls2 & Hk2).
        exists (replies1 ++ replies2), v2. split; [| done].
        rewrite framesOf_cons, flat_map_app.
        rewrite (run_app windowSize SetString FloatString), Hcalls1. simpl.
        by rewrite Hcalls2. }
      split; [rewrite Hatt2, Hatt; simpl; lia |]. done.
    + destruct Hst as (Hmax & Hret & _).
      exists (Returned s1), [dial], script. cbn [stateOf].
      split; [done |]. split; [done |].
      split; [done |]. split; [done |]. split; [done |].
      split; [rewrite Hatt; simpl; lia |]. split; [done |].
      split; [unfold maxRetries in *; lia | done].
Qed.

Lemma mainLoop_returns (script : list Dial) (s : MainState) :
  registry_ok' (calculators s) ->
  0 <= retryCount s <= maxRetries ->
  (Z.to_nat maxRetries < longestFailRun (Z.to_nat (retryCount s)) script)%nat ->
  exists s' rest, mainLoop' script s = Ret (Returned s', rest).
Proof.
  revert s. induction script as [| dial script IH]; intros s Hok Hcount Hrun.
  - simpl in Hrun. lia.
  - destruct (mainTurn_step s dial Hok Hcount)
      as (st & tail & Hturn & _ & _ & Hok1 & _ & _ & Hst).
    simpl. rewrite Hturn. simpl. destruct st as [s1 | s1]; cbn [stateOf] in *.
    + destruct Hst as (_ & Hcount1 & Hnext). apply IH; [done | done |].
      destruct dial as [err | conn]; simpl in Hrun; rewrite Hnext.
      * by replace (Z.to_nat (retryCount s + 1)) with (S (Z.to_nat (retryCount s)))
          by lia.
      * change (Z.to_nat 0) with 0%nat. lia.
    + by eexists _, _.
Qed.

Lemma mainInit_start :
  registry_ok' (calculators (mainInit windowSize)) /\
  0 <= retryCount (mainInit windowSize) <= maxRetries /\
  delayed (output (mainInit windowSize)) /\
  (output (mainInit windowSize) = []
   \/ last (output (mainInit windowSize)) = Some (Sleep retryDelay)).
Proof.
  split; [by apply mainInit_ok |]. split; [done |].
  split; [| by left]. intros i e Hi. done.
Qed.

(** X6. Whatever the network does and whatever frames arrive, [main] does
    not panic or block: after any script it is in its loop with the script
    used up, or it has returned. Its calculators are then at rest, they are
    those of the three products it started with, and it has dialled once
    for every entry of the script it used. The retry counter never leaves
    the range from 0 to [maxRetries + 1]. *)
Theorem main_never_fails (script : list Dial) :
  exists st used rest,
    script = used ++ rest /\
    main' script = Ret (st, rest) /\
    registry_ok' (calculators (stateOf st)) /\
    dom (calculators (stateOf st)) = dom (calculators (mainInit windowSize)) /\
    attempts (output (stateOf st)) = length used /\
    0 <= retryCount (stateOf st) <= maxRetries + 1 /\
    (forall s, st = Looping s -> rest = [] /\ retryCount s <= maxRetries).
Proof.
  destruct mainInit_start as (Hok & Hcount & Hdel & Hlast).
  destruct (mainLoop_steps script (mainInit windowSize) Hok Hcount Hdel Hlast)
    as (st & used & rest & Hsplit & Hrun & Hok' & Hnone & Hsome & Hatt & _ & Hc & Hloop).
  exists st, used, rest. split; [done |]. split; [done |]. split; [done |].
  split; [| done].
  apply set_eq. intros k. rewrite !elem_of_dom.
  destruct (calculators (mainInit windowSize) !! k) as [v |] eqn:Hk.
  - destruct (Hsome k v Hk) as (_ & v' & _ & ->). split; eauto.
  - by rewrite (Hnone k Hk).
Qed.

(** X7. [main] returns exactly when the script has more than [maxRetries]
    failed dials in a row: connections that were made and then failed, at
    the subscription or at a read, do not count, and put the counter back
    to zero. *)
Theorem main_returns_iff (script : list Dial) :
  (exists s rest, main' script = Ret (Returned s, rest))
  <-> (Z.to_nat maxRetries < longestFailRun 0 script)%nat.
Proof.
  destruct mainInit_start as (Hok & Hcount & _).
  split.
  - intros (s & rest & Hrun).
    destruct (decide (Z.to_nat maxRetries < longestFailRun 0 script)%nat)
      as [Hlt | Hge]; [done |].
    destruct (mainLoop_goes_on windowSize windowSize_pos windowSize_fits
                SetString FloatString script (mainInit windowSize))
      as (s' & Hloop & _);
      [done | done | change (Z.to_nat (retryCount (mainInit windowSize))) with 0%nat; lia |].
    unfold main in Hrun. congruence.
  - intros Hlt. by apply mainLoop_returns.
Qed.

(** X8. [main] never dials twice without waiting: in its output every
    dial but the first comes right after a sleep of [retryDelay]. *)
Theorem main_waits_between_dials (script : list Dial) :
  exists st rest,
    main' script = Ret (st, rest) /\
    delayed (output (stateOf st)).
Proof.
  destruct mainInit_start as (Hok & Hcount & Hdel & Hlast).
  destruct (mainLoop_steps script (mainInit windowSize) Hok Hcount Hdel Hlast)
    as (st & used & rest & _ & Hrun & _ & _ & _ & _ & Hdel' & _).
  by exists st, rest.
Qed.

(** X9. From the start of the process, across all reconnections, the
    calculator of each product retains the last [windowSize] trades that
    were accepted for that product, in the order of arrival, among the
    frames of the connections [main] has handled; trades for the other
    products and failed connections leave it as it is. *)
Theorem main_windows (script : list Dial) :
  exists st used rest,
    script = used ++ rest /\
    main' script = Ret (st, rest) /\
    forall k,
      k ∈ dom (calculators (mainInit windowSize)) ->
      exists v,
        calculators (stateOf st) !! k = Some v /\
        consistent windowSize v /\
        contents (buffer v)
        = lastn (Z.to_nat windowSize)
            (acceptedTrades SetString (flat_map (updatesOf k) (framesOf used))).
Proof.
  destruct mainInit_start as (Hok & Hcount & Hdel & Hlast).
  destruct (mainLoop_steps script (mainInit windowSize) Hok Hcount Hdel Hlast)
    as (st & used & rest & Hsplit & Hrun & _ & _ & Hsome & _).
  exists st, used, rest. split; [done |]. split; [done |].
  intros k [v0 Hk]%elem_of_dom.
  pose proof (mainInit_lookup _ _ _ Hk) as ->.
  destruct (Hsome k _ Hk) as (replies & v & Hcalls & Hv).
  destruct (run_fresh windowSize windowSize_pos windowSize_fits SetString FloatString
              (flat_map (updatesOf k) (framesOf used)))
    as (v' & Hfresh & Hcons & _ & Hc).
  rewrite Hfresh in Hcalls. simplify_eq.
  by exists v.
Qed.

End MainFacts.

(** ** What the dispatcher prints *)

Section PrintFacts.

Variable windowSize : Z.
Hypothesis windowSize_pos : 0 < windowSize.
Hypothesis windowSize_fits : windowSize <= 2 ^ 61.
Variable SetString : string -> option Qc.
Variable FloatString : Qc -> Z -> string.

(** X10. For a frame that decodes to a match for a product with a
    calculator, with a price and a size that are positive numbers, the
    price [processMessage] prints is the average over the window that
    already holds this trade: the sum of price times size over the sum of
    sizes of the last [windowSize] accepted trades, the new one last,
    written with four decimals. *)
Theorem processMessage_prints_window (message : Message)
  (calculators : gmap string VWAPCalculator) (t : Qc * Qc) (v : VWAPCalculator) :
  let trade := (Unmarshal message zeroTrade).1 in
  let window := slide (Z.to_nat windowSize) t (contents (buffer v)) in
  (Unmarshal message zeroTrade).2 = None ->
  Type_ trade = "match"%string ->
  calculators !! ProductID trade = Some v ->
  consistent windowSize v ->
  Forall positive (contents (buffer v)) ->
  parseTrade SetString (Price trade) (Size trade) = Some t ->
  exists v',
    processMessage windowSize SetString FloatString message calculators
    = Ret (<[ProductID trade := v']> calculators,
           [Infof "Received trade: %s %s @ %s" [ProductID trade; Size trade; Price trade];
            Printf "%s VWAP: %s\n"
              [ProductID trade; FloatString (sumPV window / sumVolume window)%Qc 4]]) /\
    consistent windowSize v' /\
    contents (buffer v') = window /\
    Forall positive window.
Proof.
  destruct t as [price size]. unfold processMessage.
  destruct (Unmarshal message zeroTrade) as [trade err]. simpl.
  intros -> Htype Hlookup Hv Hpos Hparse.
  apply parseTrade_Some in Hparse.
  destruct (Update_accepts windowSize windowSize_pos windowSize_fits SetString
              _ _ _ _ v Hv Hparse) as (v' & HUpdate & Hv' & Hc').
  assert (Forall positive
            (slide (Z.to_nat windowSize) (price, size) (contents (buffer v)))) as Hpos'.
  { apply positive_slide; [| done]. apply Hparse. }
  exists v'. rewrite Htype. simpl. rewrite Hlookup, HUpdate. simpl.
  rewrite Calculate_value by apply Hv'. simpl. rewrite insert_insert_eq.
  destruct Hv' as (Hmu' & Hshape' & HPV' & HVol').
  rewrite HPV', HVol', Hc', (vwapText_sums FloatString) by done.
  split; [| done]. unfold vwapText.
  destruct (slide (Z.to_nat windowSize) (price, size) (contents (buffer v)))
    as [| t0 w] eqn:Hw; [| done].
  unfold slide in Hw.
  destruct (length (contents (buffer v)) =? Z.to_nat windowSize)%nat;
    symmetry in Hw; by apply app_cons_not_nil in Hw.
Qed.

End PrintFacts.

(** ** The further properties at work *)

Lemma calculator_is_sliding_window_witness :
  (0 < 3 /\ 3 <= 2 ^ 61) /\
  exists v,
    run 3 decimalSetString decimalFloatString mixed_calls (NewVWAPCalculator 3)
    = Ret ([Updated None; Calculated "10.0000"; Updated (Some invalidTrade);
            Updated None; Updated None; Updated None; Calculated "26.0000"], v) /\
    contents (buffer v)
    = lastn 3 (acceptedTrades decimalSetString mixed_calls) /\
    count (buffer v) = 3.
Proof.
  split; [exact small_window |].
  destruct (calculator_is_sliding_window 3 (proj1 small_window) (proj2 small_window)
              decimalSetString decimalFloatString mixed_calls)
    as (v & Hrun & _ & Hc & Hcount).
  exists v. split; [exact Hrun |]. split; [exact Hc | exact Hcount].
Defined.

Lemma vwap_within_prices_witness :
  (0 < 3 /\ 3 <= 2 ^ 61) /\
  acceptedTrades decimalSetString mixed_calls <> [] /\
  exists replies v,
    run 3 decimalSetString decimalFloatString mixed_calls (NewVWAPCalculator 3)
    = Ret (replies, v) /\
    (0 < totalPV v / totalVolume v)%Qc /\
    Calculate decimalFloatString v
    = Ret (decimalFloatString (totalPV v / totalVolume v)%Qc 4, v).
Proof.
  assert (acceptedTrades decimalSetString mixed_calls <> []) as Hne
    by (vm_compute; discriminate).
  split; [exact small_window |]. split; [exact Hne |].
  destruct (vwap_within_prices 3 (proj1 small_window) (proj2 small_window)
              decimalSetString decimalFloatString mixed_calls (NewRat 20 1) (NewRat 40 1))
    as (replies & v & Hrun & Hfacts).
  destruct (Hfacts Hne) as (_ & Hpos & Hcalc & _).
  exists replies, v. split; [exact Hrun |]. split; [exact Hpos | exact Hcalc].
Defined.

Lemma processMessage_discards_witness :
  let message := frame "match" "DOGE-USD" (JString "10") (JString "1") in
  let calculators := calculators (mainInit 3) in
  calculators !! ProductID (Unmarshal message zeroTrade).1 = None /\
  exists out,
    processMessage 3 decimalSetString decimalFloatString message calculators
    = Ret (calculators, out) /\
    Forall (fun e => isPrintf e = false) out.
Proof.
  intros message calculators.
  assert (calculators !! ProductID (Unmarshal message zeroTrade).1 = None) as Hnone
    by reflexivity.
  split; [exact Hnone |].
  exact (processMessage_discards 3 decimalSetString decimalFloatString message
           calculators (or_intror (or_intror (or_introl Hnone)))).
Defined.

Lemma sample_registry_ok : registry_ok 3 (calculators (mainInit 3)).
Proof. exact (mainInit_ok 3 (proj1 small_window)). Defined.

Lemma handleConnection_per_product_witness :
  let calculators := calculators (mainInit 3) in
  (0 < 3 /\ 3 <= 2 ^ 61) /\
  registry_ok 3 calculators /\
  calculators !! "BTC-USD"%string = Some (NewVWAPCalculator 3) /\
  exists calculators' out v',
    handleConnection 3 decimalSetString decimalFloatString two_trades calculators
    = Ret ("read error: EOF"%string, calculators', out) /\
    run 3 decimalSetString decimalFloatString
      [CallUpdate "10" "1"; CallUpdate "20" "3"] (NewVWAPCalculator 3)
    = Ret ([Updated None; Updated None], v') /\
    calculators' !! "BTC-USD"%string = Some v'.
Proof.
  intros calculators.
  split; [exact small_window |]. split; [exact sample_registry_ok |].
  split; [reflexivity |].
  destruct (handleConnection_per_product 3 (proj1 small_window) (proj2 small_window)
              decimalSetString decimalFloatString two_trades calculators
              sample_registry_ok) as (calculators' & out & Hrun & _ & _ & Hsome).
  destruct (Hsome "BTC-USD"%string (NewVWAPCalculator 3) eq_refl)
    as (replies & v' & Hcalls & Hlookup).
  exists calculators', out, v'. split; [exact Hrun |]. split; [| exact Hlookup].
  assert (replies = [Updated None; Updated None]) as <-; [| exact Hcalls].
  vm_compute in Hcalls. by injection Hcalls as <- _.
Defined.

Lemma main_never_fails_witness :
  (0 < 3 /\ 3 <= 2 ^ 61) /\
  exists st rest,
    main 3 decimalSetString decimalFloatString (sample_script two_trades)
    = Ret (st, rest) /\
    rest = [DialErr "never dialled"] /\
    attempts (output (stateOf st)) = 9%nat /\
    dom (calculators (stateOf st)) = dom (calculators (mainInit 3)).
Proof.
  split; [exact small_window |].
  destruct (main_never_fails 3 (proj1 small_window) (proj2 small_window)
              decimalSetString decimalFloatString (sample_script two_trades))
    as (st & used & rest & Hsplit & Hrun & _ & Hdom & Hatt & _).
  exists st, rest. split; [exact Hrun |].
  assert (rest = [DialErr "never dialled"]) as Hrest.
  { vm_compute in Hrun. by injection Hrun as _ <-. }
  split; [exact Hrest |]. split; [| exact Hdom].
  rewrite Hatt. subst rest. apply (f_equal length) in Hsplit.
  rewrite length_app in Hsplit. simpl in Hsplit. lia.
Defined.

Lemma main_returns_iff_witness :
  (0 < 3 /\ 3 <= 2 ^ 61) /\
  (Z.to_nat maxRetries < longestFailRun 0 (sample_script two_trades))%nat /\
  exists s rest,
    main 3 decimalSetString decimalFloatString (sample_script two_trades)
    = Ret (Returned s, rest).
Proof.
  assert (Z.to_nat maxRetries < longestFailRun 0 (sample_script two_trades))%nat
    as Hlong by (vm_compute; lia).
  split; [exact small_window |]. split; [exact Hlong |].
  exact (proj2 (main_returns_iff 3 (proj1 small_window) (proj2 small_window)
                  decimalSetString decimalFloatString (sample_script two_trades)) Hlong).
Defined.

Lemma main_waits_between_dials_witness :
  (0 < 3 /\ 3 <= 2 ^ 61) /\
  exists st rest,
    main 3 decimalSetString decimalFloatString (sample_script two_trades)
    = Ret (st, rest) /\
    delayed (output (stateOf st)).
Proof.
  split; [exact small_window |].
  exact (main_waits_between_dials 3 (proj1 small_window) (proj2 small_window)
           decimalSetString decimalFloatString (sample_script two_trades)).
Defined.

Lemma main_windows_witness :
  (0 < 3 /\ 3 <= 2 ^ 61) /\
  exists st rest v,
    main 3 decimalSetString decimalFloatString (sample_script two_trades)
    = Ret (st, rest) /\
    calculators (stateOf st) !! "BTC-USD"%string = Some v /\
    contents (buffer v) = [(NewRat 10 1, NewRat 1 1); (NewRat 20 1, NewRat 3 1)].
Proof.
  split; [exact small_window |].
  destruct (main_windows 3 (proj1 small_window) (proj2 small_window)
              decimalSetString decimalFloatString (sample_script two_trades))
    as (st & used & rest & Hsplit & Hrun & Hwindows).
  destruct (Hwindows "BTC-USD"%string) as (v & Hlookup & _ & Hc).
  { apply elem_of_dom. by eexists. }
  exists st, rest, v. split; [exact Hrun |]. split; [exact Hlookup |].
  assert (used = take 9 (sample_script two_trades)) as ->.
  { assert (rest = [DialErr "never dialled"]) as ->.
    { vm_compute in Hrun. by injection Hrun as _ <-. }
    change (sample_script two_trades)
      with (take 9 (sample_script two_trades) ++ [DialErr "never dialled"]) in Hsplit.
    by apply app_inv_tail in Hsplit. }
  rewrite Hc. reflexivity.
Defined.

Lemma processMessage_prints_window_witness :
  let message := frame "match" "BTC-USD" (JString "10") (JString "1") in
  let calculators := calculators (mainInit 3) in
  (0 < 3 /\ 3 <= 2 ^ 61) /\
  (Unmarshal message zeroTrade).2 = None /\
  calculators !! "BTC-USD"%string = Some (NewVWAPCalculator 3) /\
  consistent 3 (NewVWAPCalculator 3) /\
  parseTrade decimalSetString "10" "1" = Some (NewRat 10 1, NewRat 1 1) /\
  exists v',
    processMessage 3 decimalSetString decimalFloatString message calculators
    = Ret (<["BTC-USD"%string := v']> calculators,
           [Infof "Received trade: %s %s @ %s" ["BTC-USD"; "1"; "10"]%string;
            Printf "%s VWAP: %s\n" ["BTC-USD"; "10.0000"]%string]).
Proof.
  intros message calculators.
  assert (consistent 3 (NewVWAPCalculator 3)) as Hnew.
  { unfold consistent, rb_shape. simpl. repeat split; try lia; reflexivity. }
  assert (parseTrade decimalSetString "10" "1" = Some (NewRat 10 1, NewRat 1 1))
    as Hparse by reflexivity.
  split; [exact small_window |]. split; [reflexivity |]. split; [reflexivity |].
  split; [exact Hnew |]. split; [exact Hparse |].
  destruct (processMessage_prints_window 3 (proj1 small_window) (proj2 small_window)
              decimalSetString decimalFloatString message calculators
              (NewRat 10 1, NewRat 1 1) (NewVWAPCalculator 3)
              eq_refl eq_refl eq_refl Hnew (Forall_nil_2 _) Hparse)
    as (v' & Hrun & _).
  exists v'. exact Hrun.
Defined.
